(** * Shape and masking properties of the archi-gan generator networks

    A shallow embedding of [networks/attention.py], [utilities/layers.py]
    and [networks/generator_submodules.py].

    Tensors are contiguous row-major buffers together with their shape,
    as [torch.Tensor.view] sees them.  The tensors a caller passes hold
    finite floats, written as real numbers.  What the code computes from
    them is a float of torch's default single precision: a finite
    value, [inf], [-inf] or [nan].  A sum or product whose magnitude
    exceeds the largest finite float overflows to an infinity, and the
    arithmetic of the infinities is that of IEEE 754.  Rounding of the
    finite results is outside the model. *)

From Stdlib Require Import List Arith Lia ZArith Bool Reals Lra.
Import ListNotations.

Set Implicit Arguments.

(** ** Python exceptions and the error monad *)

Inductive error : Type :=
| AttributeError
| ValueError
| RuntimeError
| AssertionError
| ZeroDivisionError
| IndexError.

Inductive result (A : Type) : Type :=
| Ok (a : A)
| Err (e : error).

Arguments Ok {A} a.
Arguments Err {A} e.

Definition bind {A B : Type} (m : result A) (k : A -> result B) : result B :=
  match m with
  | Ok a => k a
  | Err e => Err e
  end.

Declare Scope result_scope.
Delimit Scope result_scope with result.
Notation "x <- m ;; k" := (bind m (fun x => k))
  (at level 61, m at next level, right associativity) : result_scope.
Notation "' p <- m ;; k" := (bind m (fun x => match x with p => k end))
  (at level 61, p pattern, m at next level, right associativity) : result_scope.
Open Scope result_scope.

(** ** Scalars *)

(** A computed float: a finite real, [inf], [-inf] or [nan]. *)
Inductive ext : Type :=
| Fin (r : R)
| PosInf
| NegInf
| NaNx.

(** Post-softmax values: a real or [nan]. *)
Inductive fl : Type :=
| Val (r : R)
| NaN.

Definition fl_add (x y : fl) : fl :=
  match x, y with
  | Val a, Val b => Val (a + b)
  | _, _ => NaN
  end.

Definition fl_mul (x y : fl) : fl :=
  match x, y with
  | Val a, Val b => Val (a * b)
  | _, _ => NaN
  end.

Definition fl_to_ext (x : fl) : ext :=
  match x with
  | Val r => Fin r
  | NaN => NaNx
  end.

(** The largest finite float of single precision, [(2 - 2^-23) * 2^127]. *)
Definition fmax : R := IZR 340282346638528859811704183484516925440.

(** The float of an exact result [r]: [r] itself within the finite
    range, the infinity of its sign beyond. *)
Definition rnd (r : R) : ext :=
  if Rle_dec (Rabs r) fmax then Fin r
  else if Rlt_dec 0 r then PosInf else NegInf.

(** The product of an infinity, positive or not, with the finite [a]. *)
Definition inf_times (positive : bool) (a : R) : ext :=
  if Req_dec_T a 0 then NaNx
  else if Rlt_dec 0 a
       then (if positive then PosInf else NegInf)
       else (if positive then NegInf else PosInf).

Definition ext_mul (x y : ext) : ext :=
  match x, y with
  | NaNx, _ | _, NaNx => NaNx
  | Fin a, Fin b => rnd (a * b)
  | Fin a, PosInf | PosInf, Fin a => inf_times true a
  | Fin a, NegInf | NegInf, Fin a => inf_times false a
  | PosInf, PosInf | NegInf, NegInf => PosInf
  | PosInf, NegInf | NegInf, PosInf => NegInf
  end.

Definition ext_add (x y : ext) : ext :=
  match x, y with
  | NaNx, _ | _, NaNx => NaNx
  | Fin a, Fin b => rnd (a + b)
  | PosInf, NegInf | NegInf, PosInf => NaNx
  | PosInf, _ | _, PosInf => PosInf
  | NegInf, _ | _, NegInf => NegInf
  end.

(** The comparison [x <= eps] of a tensor entry with a real bound; as for
    machine floats it is false on [nan]. *)
Definition fl_le (x : fl) (eps : R) : Prop :=
  match x with
  | Val r => (r <= eps)%R
  | NaN => False
  end.

(** ** Lists as rows, matrices and batches *)

Section Rows.
Context {A : Type}.

(** [chunks n k l]: the first [k] consecutive rows of width [n] of [l]. *)
Fixpoint chunks (n k : nat) (l : list A) : list (list A) :=
  match k with
  | O => []
  | S k' => firstn n l :: chunks n k' (skipn n l)
  end.

(** Columns of a matrix given by its rows, [n] being the row width. *)
Fixpoint transpose (n : nat) (rows : list (list A)) : list (list A) :=
  match rows with
  | [] => repeat [] n
  | r :: rs => map (fun p => fst p :: snd p) (combine r (transpose n rs))
  end.

(** A buffer of shape [b; m; n] as a list of [b] matrices of [m] rows. *)
Definition to3 (b m n : nat) (l : list A) : list (list (list A)) :=
  map (chunks n m) (chunks (m * n) b l).

Definition of3 (x : list (list (list A))) : list A :=
  concat (map (@concat A) x).

(** Row [i] of a buffer of rows of width [n]. *)
Definition row_at (n i : nat) (l : list A) : list A :=
  firstn n (skipn (i * n) l).

(** Rows of one width [n]. *)
Definition uniform (n : nat) (rows : list (list A)) : Prop :=
  Forall (fun r => length r = n) rows.

(** A matrix of [m] rows of width [n]. *)
Definition block_ok (m n : nat) (blk : list (list A)) : Prop :=
  length blk = m /\ uniform n blk.
End Rows.

Definition sumR (l : list R) : R := fold_right Rplus 0%R l.

(** The inner product of two rows of floats, accumulated from zero in
    the order of the inner index, as a loop over it adds the products.
    (Backends may add them in another order, which matters only to
    which partial sum overflows.) *)
Definition dot (u v : list ext) : ext :=
  fold_left (fun acc p => ext_add acc (ext_mul (fst p) (snd p)))
            (combine u v) (Fin 0).

(** The inner product of a row of finite floats with softmax weights.
    The weights of a softmax row lie in [0, 1] and sum to 1, which keeps
    every partial sum within the magnitude of the largest entry of [u]:
    nothing overflows here. *)
Definition dot_fl (u : list R) (v : list fl) : fl :=
  fold_right fl_add (Val 0)
             (map (fun p => fl_mul (Val (fst p)) (snd p)) (combine u v)).

(** Matrix product of [a] ([m] rows of width [k]) with [b] ([k] rows of
    width [p]), generic in the inner product. *)
Definition matmul {A B C : Type} (dotp : list A -> list B -> C) (p : nat)
           (a : list (list A)) (b : list (list B)) : list (list C) :=
  map (fun row => map (dotp row) (transpose p b)) a.

(** ** Tensors *)

Record Tensor (A : Type) : Type := mkTensor {
  shape : list nat;
  data : list A
}.

Definition numel (s : list nat) : nat := fold_right Nat.mul 1 s.

(** The buffer holds exactly the entries the shape announces. *)
Definition wf {A : Type} (t : Tensor A) : Prop :=
  length (data t) = numel (shape t).

(** Tuple unpacking of a shape: [ValueError] on a rank mismatch. *)
Definition unpack2 (s : list nat) : result (nat * nat) :=
  match s with
  | [a; b] => Ok (a, b)
  | _ => Err ValueError
  end.

Definition unpack3 (s : list nat) : result (nat * nat * nat) :=
  match s with
  | [a; b; c] => Ok (a, b, c)
  | _ => Err ValueError
  end.

Definition unpack4 (s : list nat) : result (nat * nat * nat * nat) :=
  match s with
  | [a; b; c; d] => Ok (a, b, c, d)
  | _ => Err ValueError
  end.

(** [Tensor.size(i)]. *)
Definition size {A : Type} (t : Tensor A) (i : nat) : result nat :=
  match nth_error (shape t) i with
  | Some n => Ok n
  | None => Err IndexError
  end.

(** [Tensor.view] with every size given. *)
Definition view {A : Type} (t : Tensor A) (s : list nat) : result (Tensor A) :=
  if numel s =? numel (shape t)
  then Ok (mkTensor s (data t))
  else Err RuntimeError.

(** [view] with one size left to be inferred ([-1]), the sizes being
    [pre ++ _ :: post]: the missing size comes from the element count. *)
Definition view_infer_shape (s pre post : list nat) : result (list nat) :=
  let known := numel pre * numel post in
  let total := numel s in
  if known =? 0 then Err RuntimeError
  else if total mod known =? 0
       then Ok (pre ++ (total / known) :: post)
       else Err RuntimeError.

Definition view_infer {A : Type} (t : Tensor A) (pre post : list nat)
  : result (Tensor A) :=
  s <- view_infer_shape (shape t) pre post ;;
  Ok (mkTensor s (data t)).

(** [Tensor.unsqueeze(3)]. *)
Definition unsqueeze3 {A : Type} (t : Tensor A) : result (Tensor A) :=
  if 3 <=? length (shape t)
  then Ok (mkTensor (firstn 3 (shape t) ++ 1 :: skipn 3 (shape t)) (data t))
  else Err IndexError.

(** [Tensor.squeeze(3)]: drops dimension 3 when its size is 1. *)
Definition squeeze3 {A : Type} (t : Tensor A) : result (Tensor A) :=
  match nth_error (shape t) 3 with
  | Some 1 => Ok (mkTensor (firstn 3 (shape t) ++ skipn 4 (shape t)) (data t))
  | Some _ => Ok t
  | None => Err IndexError
  end.

(** [Tensor.transpose(1, 2).contiguous()] on a rank-3 tensor. *)
Definition transpose12 {A : Type} (t : Tensor A) : result (Tensor A) :=
  match shape t with
  | [b; m; n] =>
      Ok (mkTensor [b; n; m] (of3 (map (transpose n) (to3 b m n (data t)))))
  | _ => Err IndexError
  end.

(** [torch.bmm]: both operands of rank 3, equal batch sizes, matching
    inner sizes; anything else is a [RuntimeError]. *)
Definition bmm_with {A B C : Type} (dotp : list A -> list B -> C)
           (x : Tensor A) (y : Tensor B) : result (Tensor C) :=
  match shape x, shape y with
  | [b; n; m], [b'; m'; p] =>
      if (b =? b') && (m =? m')
      then Ok (mkTensor [b; n; p]
                 (of3 (map (fun xy => matmul dotp p (fst xy) (snd xy))
                           (combine (to3 b n m (data x))
                                    (to3 b m p (data y))))))
      else Err RuntimeError
  | _, _ => Err RuntimeError
  end.

Definition bmm := bmm_with dot.
Definition bmm_fl := bmm_with dot_fl.

(** Multiplication of a tensor by a Python float, which becomes a
    float of the tensor's precision first. *)
Definition scale (k : R) (t : Tensor ext) : Tensor ext :=
  mkTensor (shape t) (map (fun x => ext_mul x (rnd k)) (data t)).

Definition scale_fl (k : R) (t : Tensor fl) : Tensor ext :=
  mkTensor (shape t) (map (fun x => ext_mul (fl_to_ext x) (rnd k)) (data t)).

(** [torch.repeat_interleave(input, repeats, dim=0)] on a rank-2 tensor:
    every row is repeated [repeats] times in place. *)
Definition repeat_interleave {A : Type} (t : Tensor A) (repeats : nat)
  : result (Tensor A) :=
  match shape t with
  | [b; l] =>
      Ok (mkTensor [b * repeats; l]
            (concat (flat_map (fun row => repeat row repeats)
                              (chunks l b (data t)))))
  | _ => Err RuntimeError
  end.

Definition list_nat_eqb (s1 s2 : list nat) : bool :=
  if list_eq_dec Nat.eq_dec s1 s2 then true else false.

(** One entry of [attn.masked_fill(mask == 0, -inf)], from the score
    and the mask value. *)
Definition fill (xm : ext * Z) : ext :=
  if Z.eqb (snd xm) 0 then NegInf else fst xm.

(** [attn.masked_fill(mask == 0, -inf)] for a mask of the shape of [attn]
    (the only use in this code base; broadcasting is not modelled). *)
Definition masked_fill (attn : Tensor ext) (mask : Tensor Z) : result (Tensor ext) :=
  if list_nat_eqb (shape attn) (shape mask)
  then Ok (mkTensor (shape attn) (map fill (combine (data attn) (data mask))))
  else Err RuntimeError.

(** ** Softmax *)

Definition is_nan (x : ext) : bool :=
  match x with NaNx => true | _ => false end.

Definition is_finite (x : ext) : bool :=
  match x with Fin _ => true | _ => false end.

Definition is_posinf (x : ext) : bool :=
  match x with PosInf => true | _ => false end.

(** [exp] on scores, with [exp(-inf) = 0]. *)
Definition exp_ext (x : ext) : R :=
  match x with
  | Fin r => exp r
  | _ => 0%R
  end.

(** Softmax of one row, [exp(x_i) / sum_j exp(x_j)].  A [nan] entry
    poisons the row, an [inf] entry divides infinity by infinity, and a
    row without a finite entry divides zero by zero: all three give
    [nan] everywhere. *)
Definition softmax_row (row : list ext) : list fl :=
  if existsb is_nan row || existsb is_posinf row || negb (existsb is_finite row)
  then map (fun _ => NaN) row
  else map (fun x => Val (exp_ext x / sumR (map exp_ext row))) row.

(** [torch.softmax(t, dim=1)] on a rank-2 tensor. *)
Definition softmax_dim1 (t : Tensor ext) : result (Tensor fl) :=
  match shape t with
  | [n; l] =>
      Ok (mkTensor [n; l] (concat (map softmax_row (chunks l n (data t)))))
  | _ => Err IndexError
  end.

(** ** utilities/layers.py *)

Module Layers.

(** *** The gated linear unit, on values *)

Definition sigmoid (x : R) : R := (1 / (1 + exp (- x)))%R.

(** [x[:, :nc]]: the first [nc] channels of every sample. *)
Definition slice_to {A : Type} (x : Tensor A) (nc : nat) : result (Tensor A) :=
  match shape x with
  | b :: c :: rest =>
      Ok (mkTensor (b :: Nat.min nc c :: rest)
            (concat (map (firstn (nc * numel rest))
                         (chunks (c * numel rest) b (data x)))))
  | _ => Err IndexError
  end.

(** [x[:, nc:]]: the channels from [nc] on of every sample. *)
Definition slice_from {A : Type} (x : Tensor A) (nc : nat) : result (Tensor A) :=
  match shape x with
  | b :: c :: rest =>
      Ok (mkTensor (b :: (c - nc) :: rest)
            (concat (map (skipn (nc * numel rest))
                         (chunks (c * numel rest) b (data x)))))
  | _ => Err IndexError
  end.

(** Elementwise product of two tensors of one shape (the only use in
    this code base; broadcasting is not modelled). *)
Definition mul (x y : Tensor R) : result (Tensor R) :=
  if list_nat_eqb (shape x) (shape y)
  then Ok (mkTensor (shape x)
             (map (fun p => (fst p * snd p)%R) (combine (data x) (data y))))
  else Err RuntimeError.

Definition F_sigmoid (x : Tensor R) : Tensor R :=
  mkTensor (shape x) (map sigmoid (data x)).

(** [GLU.forward]. *)
Definition GLU_forward (x : Tensor R) : result (Tensor R) :=
  nc <- size x 1 ;;
  if nc mod 2 =? 0
  then
    let nc := nc / 2 in
    lo <- slice_to x nc ;;
    hi <- slice_from x nc ;;
    mul lo (F_sigmoid hi)
  else Err AssertionError.

(** *** Layers as shape transformers

    The library layers ([nn.Conv2d], [nn.BatchNorm2d], [nn.Upsample],
    [nn.Linear], ...) carry learned weights; the generator stages are
    followed through them by shape, each layer checking what the
    library checks about the shape it is given. *)

Inductive Layer : Type :=
| Upsample (scale_factor : nat)
| Conv2d (in_channels out_channels kernel_size stride padding : nat)
| BatchNorm2d (num_features : nat)
| BatchNorm1d (num_features : nat)
| Linear (in_features out_features : nat)
| LeakyReLU
| Tanh
| GLU.

Definition Sequential : Type := list Layer.

(** One spatial extent through a convolution. *)
Definition conv_out (n kernel_size stride padding : nat) : result nat :=
  if (kernel_size <=? n + 2 * padding) && (1 <=? stride)
  then Ok ((n + 2 * padding - kernel_size) / stride + 1)
  else Err RuntimeError.

Definition GLU_shape (s : list nat) : result (list nat) :=
  match s with
  | b :: nc :: rest =>
      if nc mod 2 =? 0 then Ok (b :: nc / 2 :: rest) else Err AssertionError
  | _ => Err IndexError
  end.

(** The check of a batch normalization in training mode, the mode a
    module is constructed in and which nothing in this code base leaves:
    the batch size times the extents after the channel axis being 1,
    there is one value per channel and no batch statistics. *)
Definition one_value_per_channel (s : list nat) : bool :=
  match s with
  | b :: _ :: rest => b * numel rest =? 1
  | _ => false
  end.

(** What a layer checks of the shape it is given, and the shape it
    returns.  A convolution without output channels raises when it is
    applied; a batch normalization checks the rank of its input, then
    the number of values per channel, then the channel count. *)
Definition layer_shape (l : Layer) (s : list nat) : result (list nat) :=
  match l with
  | Upsample k =>
      match s with
      | [b; c; h; w] =>
          if (1 <=? h) && (1 <=? w) then Ok [b; c; h * k; w * k]
          else Err RuntimeError
      | _ => Err RuntimeError
      end
  | Conv2d cin cout k st p =>
      match s with
      | [b; c; h; w] =>
          if (c =? cin) && negb (cout =? 0)
          then (h' <- conv_out h k st p ;;
                w' <- conv_out w k st p ;;
                Ok [b; cout; h'; w'])
          else Err RuntimeError
      | _ => Err RuntimeError
      end
  | BatchNorm2d n =>
      match s with
      | [b; c; h; w] =>
          if one_value_per_channel s then Err ValueError
          else if c =? n then Ok s else Err RuntimeError
      | _ => Err ValueError
      end
  | BatchNorm1d n =>
      match s with
      | [b; c] | [b; c; _] =>
          if one_value_per_channel s then Err ValueError
          else if c =? n then Ok s else Err RuntimeError
      | _ => Err ValueError
      end
  | Linear fin fout =>
      match rev s with
      | last :: front =>
          if last =? fin then Ok (rev (fout :: front)) else Err RuntimeError
      | [] => Err RuntimeError
      end
  | LeakyReLU | Tanh => Ok s
  | GLU => GLU_shape s
  end.

(** [nn.Sequential.forward]: the layers in order. *)
Fixpoint seq_shape (block : Sequential) (s : list nat) : result (list nat) :=
  match block with
  | [] => Ok s
  | l :: block' => s' <- layer_shape l s ;; seq_shape block' s'
  end.

Definition conv1x1 (in_planes out_planes : nat) : Layer :=
  Conv2d in_planes out_planes 1 1 0.

Definition conv3x3 (in_planes out_planes : nat) : Layer :=
  Conv2d in_planes out_planes 3 1 1.

Definition upBlock (in_planes out_planes : nat) : Sequential :=
  [ Upsample 2;
    conv3x3 in_planes (out_planes * 2);
    BatchNorm2d (out_planes * 2);
    GLU ].

Definition Block3x3_relu (in_planes out_planes : nat) : Sequential :=
  [ conv3x3 in_planes (out_planes * 2);
    BatchNorm2d (out_planes * 2);
    GLU ].

Definition Block3x3_leakRelu (in_planes out_planes : nat) : Sequential :=
  [ conv3x3 in_planes out_planes;
    BatchNorm2d out_planes;
    LeakyReLU ].

Definition downBlock (in_planes out_planes : nat) : Sequential :=
  [ Conv2d in_planes out_planes 4 2 1;
    BatchNorm2d out_planes;
    LeakyReLU ].

Definition encode_image_by_16times (df_dims : nat) : Sequential :=
  [ Conv2d 3 df_dims 4 2 1;
    LeakyReLU;
    Conv2d df_dims (df_dims * 2) 4 2 1;
    BatchNorm2d (df_dims * 2);
    LeakyReLU;
    Conv2d (df_dims * 2) (df_dims * 4) 4 2 1;
    BatchNorm2d (df_dims * 4);
    LeakyReLU;
    Conv2d (df_dims * 4) (df_dims * 8) 4 2 1;
    BatchNorm2d (df_dims * 8);
    LeakyReLU ].

Record ResBlock : Type := mkResBlock { block : Sequential }.

Definition ResBlock_init (channel_num : nat) : ResBlock :=
  mkResBlock
    [ conv3x3 channel_num (channel_num * 2);
      BatchNorm2d (channel_num * 2);
      GLU;
      conv3x3 channel_num channel_num;
      BatchNorm2d channel_num ].

(** [ResBlock.forward]; [out += residual] needs [residual] to have the
    shape of [out]. *)
Definition ResBlock_shape (self : ResBlock) (x : list nat) : result (list nat) :=
  let residual := x in
  out <- seq_shape (block self) x ;;
  if list_nat_eqb out residual then Ok out else Err RuntimeError.

(** [torch.cat((x, y), 1)] on shapes. *)
Definition cat1_shape (x y : list nat) : result (list nat) :=
  match x, y with
  | b :: c :: rest, b' :: c' :: rest' =>
      if (b =? b') && list_nat_eqb rest rest'
      then Ok (b :: (c + c') :: rest)
      else Err RuntimeError
  | _, _ => Err IndexError
  end.

End Layers.

(** A tensor of finite floats as a tensor of computed ones. *)
Definition to_ext (x : Tensor R) : Tensor ext :=
  mkTensor (shape x) (map Fin (data x)).

Definition fl_tensor_to_ext (x : Tensor fl) : Tensor ext :=
  mkTensor (shape x) (map fl_to_ext (data x)).

(** A bias-free 1x1 convolution with its weight, of shape
    [out_planes; in_planes; 1; 1], on values. *)
Record Conv1x1 : Type := mkConv1x1 {
  in_planes : nat;
  out_planes : nat;
  weight : list R
}.

(** As for [Layers.Conv2d], a convolution without output channels
    raises when it is applied. *)
Definition Conv1x1_forward (c : Conv1x1) (x : Tensor R) : result (Tensor ext) :=
  match shape x with
  | [b; ci; h; w] =>
      if (ci =? in_planes c) && negb (out_planes c =? 0)
      then (h' <- Layers.conv_out h 1 1 0 ;;
            w' <- Layers.conv_out w 1 1 0 ;;
            Ok (mkTensor [b; out_planes c; h'; w']
                  (of3 (map (matmul dot (h * w)
                                    (chunks (in_planes c) (out_planes c)
                                            (map Fin (weight c))))
                            (to3 b ci (h * w) (map Fin (data x)))))))
      else Err RuntimeError
  | _ => Err RuntimeError
  end.

(** [attn * (1 / sqrt(n))]: Python raises on the division when [n] is 0. *)
Definition scale_by_sqrt (n : nat) (attn : Tensor ext) : result (Tensor ext) :=
  if n =? 0 then Err ZeroDivisionError
  else Ok (scale (1 / sqrt (INR n)) attn).

(** ** networks/attention.py *)

Module AttentionModule.

Record t : Type := mk {
  nc_in : nat;
  conv1 : Conv1x1;
  mask : option (Tensor Z)
}.

(** [__init__]; [w] is the initial weight of the projection. *)
Definition init (nc_in emb_dim : nat) (w : list R) : t :=
  mk nc_in (mkConv1x1 emb_dim nc_in w) None.

Definition apply_mask (self : t) (mask : Tensor Z) : t :=
  mk (nc_in self) (conv1 self) (Some mask).

(** [self.mask.shape]: [None] has no attribute [shape]. *)
Definition mask_shape (self : t) : result (list nat) :=
  match mask self with
  | Some m => Ok (shape m)
  | None => Err AttributeError
  end.

Definition get_mask (self : t) : result (Tensor Z) :=
  match mask self with
  | Some m => Ok m
  | None => Err AttributeError
  end.

Definition forward (self : t) (images words : Tensor R) (scaled : bool)
  : result (Tensor ext * Tensor fl) :=
  ' (batch, nc_in, h, w) <- unpack4 (shape images) ;;
  ' (batch, emb_dim, seq_len) <- unpack3 (shape words) ;;
  mshape <- mask_shape self ;;
  ' (batch, seq_len) <- unpack2 mshape ;;
  (* Reshape words *)
  words <- unsqueeze3 words ;;
  words <- Conv1x1_forward (conv1 self) words ;;
  words <- squeeze3 words ;;
  (* Reshape images into one long matrix *)
  images <- view images [batch; nc_in; h * w] ;;
  images <- transpose12 images ;;
  (* Compute attention *)
  attn <- bmm (to_ext images) words ;;
  attn <- (if scaled then scale_by_sqrt nc_in attn else Ok attn) ;;
  attn <- view attn [batch * h * w; seq_len] ;;
  (* Apply mask before softmaxing *)
  self_mask <- get_mask self ;;
  mask <- repeat_interleave self_mask (h * w) ;;
  attn <- masked_fill attn mask ;;
  attn <- softmax_dim1 attn ;;
  attn <- view attn [batch; h * w; seq_len] ;;
  attn <- transpose12 attn ;;
  (* Compute weighted word vectors *)
  weighted_words <- bmm words (fl_tensor_to_ext attn) ;;
  weighted <- view weighted_words [batch; nc_in; h; w] ;;
  attn <- view attn [batch; seq_len; h; w] ;;
  Ok (weighted, attn).

End AttentionModule.

(** [nn.Softmax()] without [dim] on a rank-2 tensor: the implicit
    dimension is 1.  Both uses in [func_attention] are of rank 2. *)
Definition Softmax_implicit (x : Tensor ext) : result (Tensor fl) :=
  match shape x with
  | [_; _] => softmax_dim1 x
  | _ => Err RuntimeError
  end.

(** The scores of [func_attention], from the flattened [context] on
    (Eq. (7)): a tensor of shape [batch_size * sourceL; queryL]. *)
Definition func_attention_scores (batch_size ndf queryL sourceL : nat)
           (query context : Tensor R) (scaled : bool) : result (Tensor ext) :=
  contextT <- transpose12 context ;;
  attn <- bmm (to_ext contextT) (to_ext query) ;;
  attn <- (if scaled then scale_by_sqrt ndf attn else Ok attn) ;;
  view attn [batch_size * sourceL; queryL].

(** The first softmax stage of [func_attention] (Eq. (8)). *)
Definition func_attention_stage1 (batch_size ndf queryL sourceL : nat)
           (query context : Tensor R) (scaled : bool) : result (Tensor fl) :=
  attn <- func_attention_scores batch_size ndf queryL sourceL query context scaled ;;
  Softmax_implicit attn.

Definition func_attention (query context : Tensor R) (gamma1 : R) (scaled : bool)
  : result (Tensor fl * Tensor fl) :=
  ' (batch_size, ndf, queryL) <- unpack3 (shape query) ;;
  ih <- size context 2 ;;
  iw <- size context 3 ;;
  let sourceL := ih * iw in
  context <- view_infer context [batch_size] [sourceL] ;;
  attn <- func_attention_stage1 batch_size ndf queryL sourceL query context scaled ;;
  attn <- view attn [batch_size; sourceL; queryL] ;;
  attn <- transpose12 attn ;;
  attn <- view attn [batch_size * queryL; sourceL] ;;
  (* Eq. (9) *)
  let attn := scale_fl gamma1 attn in
  attn <- Softmax_implicit attn ;;
  attn <- view attn [batch_size; queryL; sourceL] ;;
  attnT <- transpose12 attn ;;
  weightedContext <- bmm_fl context attnT ;;
  attn <- view_infer attn [batch_size] [ih; iw] ;;
  Ok (weightedContext, attn).

(** The first-stage attention of a call of [func_attention]. *)
Definition func_attention_first (query context : Tensor R) (scaled : bool)
  : result (Tensor fl) :=
  ' (batch_size, ndf, queryL) <- unpack3 (shape query) ;;
  ih <- size context 2 ;;
  iw <- size context 3 ;;
  let sourceL := ih * iw in
  context <- view_infer context [batch_size] [sourceL] ;;
  func_attention_stage1 batch_size ndf queryL sourceL query context scaled.

(** The scores a call of [func_attention] hands to its first softmax. *)
Definition func_attention_first_scores (query context : Tensor R) (scaled : bool)
  : result (Tensor ext) :=
  ' (batch_size, ndf, queryL) <- unpack3 (shape query) ;;
  ih <- size context 2 ;;
  iw <- size context 3 ;;
  let sourceL := ih * iw in
  context <- view_infer context [batch_size] [sourceL] ;;
  func_attention_scores batch_size ndf queryL sourceL query context scaled.

(** ** networks/generator_submodules.py *)

Module GenInitialStage.

Record t : Type := mk {
  gf_dim : nat;
  z_dim : nat;
  emb_dim : nat;
  fc : Layers.Sequential;
  upsample1 : Layers.Sequential;
  upsample2 : Layers.Sequential;
  upsample3 : Layers.Sequential;
  upsample4 : Layers.Sequential
}.

Definition define_module (gf_dim z_dim emb_dim : nat) : t :=
  let ng := gf_dim in
  let nz := z_dim in
  let ne := emb_dim in
  mk gf_dim z_dim emb_dim
     [ Layers.Linear (nz + ne) (ng * 4 * 4 * 2);
       Layers.BatchNorm1d (ng * 4 * 4 * 2);
       Layers.GLU ]
     (Layers.upBlock ng (ng / 2))
     (Layers.upBlock (ng / 2) (ng / 4))
     (Layers.upBlock (ng / 4) (ng / 8))
     (Layers.upBlock (ng / 8) (ng / 16)).

(** [__init__]: three assignments and [define_module]; no statement
    of either checks [gf_dim] or raises. *)
Definition init (gf_dim z_dim emb_dim : nat) : result t :=
  Ok (define_module gf_dim z_dim emb_dim).

Definition forward (self : t) (noise sentence : list nat) : result (list nat) :=
  noise_sentence <- Layers.cat1_shape noise sentence ;;
  X <- Layers.seq_shape (fc self) noise_sentence ;;
  X <- view_infer_shape X [] [gf_dim self; 4; 4] ;;
  X <- Layers.seq_shape (upsample1 self) X ;;
  X <- Layers.seq_shape (upsample2 self) X ;;
  X <- Layers.seq_shape (upsample3 self) X ;;
  X <- Layers.seq_shape (upsample4 self) X ;;
  Ok X.

End GenInitialStage.

Module GenNextStage.

Record t : Type := mk {
  gf_dim : nat;
  emb_dim : nat;
  num_residual_blocks : nat;
  attention : AttentionModule.t;
  residual : list Layers.ResBlock;
  upsample : Layers.Sequential
}.

(** The loop of [_make_layer]: [n] fresh blocks, appended in turn. *)
Fixpoint _make_layer (n channel_num : nat) : list Layers.ResBlock :=
  match n with
  | O => []
  | S n' => _make_layer n' channel_num ++ [Layers.ResBlock_init channel_num]
  end.

(** [__init__] with [define_module]; [w] is the initial weight of the
    attention's projection. *)
Definition init (gf_dim emb_dim num_residual_blocks : nat) (w : list R) : t :=
  mk gf_dim emb_dim num_residual_blocks
     (AttentionModule.init gf_dim emb_dim w)
     (_make_layer num_residual_blocks (gf_dim * 2))
     (Layers.upBlock (gf_dim * 2) gf_dim).

Fixpoint residual_shape (blocks : list Layers.ResBlock) (s : list nat)
  : result (list nat) :=
  match blocks with
  | [] => Ok s
  | b :: blocks' => s' <- Layers.ResBlock_shape b s ;; residual_shape blocks' s'
  end.

(** [forward]: the attention on values, the residual and upsample
    blocks on shapes.  The module comes back with the mask it now
    holds. *)
Definition forward (self : t) (images word_embs : Tensor R) (mask : Tensor Z)
  : result (t * (list nat * Tensor fl)) :=
  let self := mk (gf_dim self) (emb_dim self) (num_residual_blocks self)
                 (AttentionModule.apply_mask (attention self) mask)
                 (residual self) (upsample self) in
  ' (context, attn) <- AttentionModule.forward (attention self) images word_embs true ;;
  image_context <- Layers.cat1_shape (shape images) (shape context) ;;
  X <- residual_shape (residual self) image_context ;;
  X <- Layers.seq_shape (upsample self) X ;;
  Ok (self, (X, attn)).

End GenNextStage.

Module GenMakeImage.

Record t : Type := mk {
  gf_dim : nat;
  img : Layers.Sequential
}.

(** [__init__]: a 3x3 convolution to 3 channels, then [nn.Tanh], which
    keeps the shape it is given. *)
Definition init (gf_dim : nat) : t :=
  mk gf_dim [ Layers.conv3x3 gf_dim 3; Layers.Tanh ].

Definition forward (self : t) (images : list nat) : result (list nat) :=
  X <- Layers.seq_shape (img self) images ;;
  Ok X.

End GenMakeImage.

(** ** Reading entries *)

(** [t[b, c, y, x]] of a rank-4 tensor and [t[b, l]] of a rank-2 one. *)
Definition get4 {A : Type} (t : Tensor A) (b c y x : nat) : option A :=
  match shape t with
  | [_; C; H; W] => nth_error (data t) (((b * C + c) * H + y) * W + x)
  | _ => None
  end.

Definition get2 {A : Type} (t : Tensor A) (b l : nat) : option A :=
  match shape t with
  | [_; L] => nth_error (data t) (b * L + l)
  | _ => None
  end.

(** ** Derived notions used in the statements *)

(** The scores [AttentionModule.forward] holds when it turns to the
    mask, one row per sample and spatial location: the statements of
    [forward] up to [attn.view(batch * h * w, seq_len)]. *)
Definition attention_scores (self : AttentionModule.t) (images words : Tensor R)
           (scaled : bool) : result (Tensor ext) :=
  ' (batch, nc_in, h, w) <- unpack4 (shape images) ;;
  ' (batch, emb_dim, seq_len) <- unpack3 (shape words) ;;
  mshape <- AttentionModule.mask_shape self ;;
  ' (batch, seq_len) <- unpack2 mshape ;;
  words <- unsqueeze3 words ;;
  words <- Conv1x1_forward (AttentionModule.conv1 self) words ;;
  words <- squeeze3 words ;;
  images <- view images [batch; nc_in; h * w] ;;
  images <- transpose12 images ;;
  attn <- bmm (to_ext images) words ;;
  attn <- (if scaled then scale_by_sqrt nc_in attn else Ok attn) ;;
  view attn [batch * h * w; seq_len].

(** The scaling step, when it does not divide by zero. *)
Definition scaled_by (scaled : bool) (n : nat) (t : Tensor ext) : Tensor ext :=
  if scaled then scale (1 / sqrt (INR n)) t else t.

(** The words after [conv1] and the images, flattened, as [forward]
    multiplies them. *)
Definition flat_images (B C hw : nat) (images : Tensor R) : Tensor ext :=
  to_ext (mkTensor [B; hw; C]
            (of3 (map (transpose hw) (to3 B C hw (data images))))).

Definition conv_words (self : AttentionModule.t) (B E L : nat) (words : Tensor R)
  : Tensor ext :=
  mkTensor [B; out_planes (AttentionModule.conv1 self); L]
    (of3 (map (matmul dot (L * 1)
                 (chunks E (out_planes (AttentionModule.conv1 self))
                         (map Fin (weight (AttentionModule.conv1 self)))))
              (to3 B E (L * 1) (map Fin (data words))))).

(** The scores of a call on inputs of matching shapes. *)
Definition scores_of (self : AttentionModule.t) (images words : Tensor R)
           (scaled : bool) (B C H W E L : nat) : Tensor ext :=
  mkTensor [B * H * W; L]
    (data (scaled_by scaled C
             (mkTensor [B; H * W; L]
                (of3 (map (fun xy => matmul dot L (fst xy) (snd xy))
                        (combine (to3 B (H * W) C (data (flat_images B C (H * W) images)))
                                 (to3 B C L (data (conv_words self B E L words))))))))).

(** A float that is a finite number. *)
Definition finite (x : option ext) : Prop := exists r : R, x = Some (Fin r).

(** The attention map [forward] computes from the (scaled) scores and
    the mask buffer: fill, softmax over the rows of width [L], regroup
    by sample, transpose. *)
Definition attention_weights (B hw L : nat) (scores : list ext) (mdata : list Z)
  : list fl :=
  of3 (map (transpose L)
         (to3 B hw L
            (concat (map softmax_row
               (chunks L (B * hw)
                  (map fill
                     (combine scores
                        (concat (flat_map (fun row => repeat row hw)
                                          (chunks L B mdata)))))))))).

(** What [define_module] establishes and [forward] keeps. *)
Definition configured (self : GenNextStage.t) : Prop :=
  GenNextStage.residual self
  = GenNextStage._make_layer (GenNextStage.num_residual_blocks self)
                             (GenNextStage.gf_dim self * 2) /\
  GenNextStage.upsample self
  = Layers.upBlock (GenNextStage.gf_dim self * 2) (GenNextStage.gf_dim self) /\
  in_planes (AttentionModule.conv1 (GenNextStage.attention self))
  = GenNextStage.emb_dim self /\
  out_planes (AttentionModule.conv1 (GenNextStage.attention self))
  = GenNextStage.gf_dim self.

(** The attention map [func_attention] computes from the (scaled)
    scores: softmax over the rows of width [Q], regroup by sample,
    transpose, multiply by [gamma1], softmax over the rows of width
    [S]. *)
Definition second_stage (B S Q : nat) (gamma1 : R) (scores : list ext) : list fl :=
  let first := concat (map softmax_row (chunks Q (B * S) scores)) in
  let transposed := of3 (map (transpose Q) (to3 B S Q first)) in
  let sharpened := map (fun x => ext_mul (fl_to_ext x) (rnd gamma1)) transposed in
  concat (map softmax_row (chunks S (B * Q) sharpened)).

(** [torch.bmm(words, attn)] on buffers of shapes [B; C; L] and
    [B; L; hw]. *)
Definition weighted_context (B C L hw : nat) (wproj : list ext) (attn : list fl)
  : list ext :=
  of3 (map (fun xy => matmul dot hw (fst xy) (snd xy))
           (combine (to3 B C L wproj) (to3 B L hw (map fl_to_ext attn)))).

Definition is_zero (z : Z) : bool := Z.eqb z 0.

(** ** Concrete inputs used in examples *)

Open Scope R_scope.

Definition ex_images : Tensor R := mkTensor [1; 1; 1; 2]%nat [1; 2].
Definition ex_words : Tensor R := mkTensor [1; 1; 2]%nat [3; 4].
Definition ex_mask : Tensor Z := mkTensor [1; 2]%nat [1%Z; 0%Z].
Definition ex_mask_zero : Tensor Z := mkTensor [1; 2]%nat [0%Z; 0%Z].
Definition ex_module : AttentionModule.t := AttentionModule.init 1 1 [1].

(** Finite single-precision inputs whose products exceed [fmax]. *)
Definition ex_images_large : Tensor R :=
  mkTensor [1; 1; 1; 2]%nat [100000000000000000000; 200000000000000000000].
Definition ex_words_large : Tensor R :=
  mkTensor [1; 1; 2]%nat [300000000000000000000; 400000000000000000000].

Close Scope R_scope.

Definition ex_pixel : Tensor R := mkTensor [1; 1; 1; 1] [1%R].

Definition ex_mask_short : Tensor Z := mkTensor [1; 1] [1%Z].
Definition ex_mask_two : Tensor Z := mkTensor [2; 2] [1%Z; 1%Z; 1%Z; 0%Z].

Definition ex_glu_input : Tensor R := mkTensor [1; 2; 2] [1; 2; 3; 4]%R.

Definition ex_stage : GenNextStage.t := GenNextStage.init 1 1 2 [1%R].

Definition ex_query : Tensor R := mkTensor [1; 1; 1] [1%R].
Definition ex_context : Tensor R := mkTensor [1; 1; 1; 2] [1%R; 2%R].

Definition ex_context_two : Tensor R := mkTensor [2; 2; 1; 2] [1; 2; 3; 4; 5; 6; 7; 8]%R.
Definition ex_query_four : Tensor R := mkTensor [1; 4; 1] [1; 2; 3; 4]%R.
Definition ex_images_two : Tensor R := mkTensor [2; 1; 1; 2] [1; 2; 3; 4]%R.
Definition ex_words_two : Tensor R := mkTensor [2; 1; 2] [3; 4; 5; 6]%R.
Definition ex_mask_mixed : Tensor Z := mkTensor [2; 2] [1; 0; 0; 0]%Z.
Definition ex_mask_twos : Tensor Z := mkTensor [1; 2] [2%Z; 0%Z].

(** * Properties *)

Ltac split_if :=
  match goal with
  | |- context [if ?c then _ else _] => destruct c eqn:?
  end.

Ltac raises := eexists; split; [reflexivity | auto].

(** ** Rows and chunks *)

Section RowLemmas.
Context {A : Type}.
Implicit Types (l : list A) (rows : list (list A)).

Lemma chunks_length n k l : length (chunks n k l) = k.
Proof. revert l; induction k; intros; simpl; auto. Qed.

Lemma chunks_uniform n k l :
  length l = k * n -> uniform n (chunks n k l).
Proof.
  revert l; induction k; intros l Hl; simpl.
  - constructor.
  - constructor.
    + rewrite length_firstn. simpl in Hl. lia.
    + apply IHk. rewrite length_skipn. simpl in Hl. lia.
Qed.

Lemma concat_chunks n k l :
  length l = k * n -> concat (chunks n k l) = l.
Proof.
  revert l; induction k; intros l Hl; simpl.
  - destruct l; simpl in *; congruence.
  - rewrite IHk.
    + apply firstn_skipn.
    + rewrite length_skipn. simpl in Hl. lia.
Qed.

Lemma chunks_concat n rows :
  uniform n rows -> chunks n (length rows) (concat rows) = rows.
Proof.
  induction rows as [|r rows IH]; intros Hu; simpl; auto.
  inversion Hu as [|? ? Hr Hu']; subst.
  rewrite firstn_app, Nat.sub_diag, firstn_O, app_nil_r, firstn_all.
  rewrite skipn_app, Nat.sub_diag, skipn_all. simpl.
  now rewrite IH.
Qed.

Lemma concat_uniform_length n rows :
  uniform n rows -> length (concat rows) = length rows * n.
Proof.
  induction 1 as [|r rows Hr _ IH]; simpl; auto.
  rewrite length_app, IH, Hr. lia.
Qed.

Lemma nth_error_chunks n k l i :
  i < k ->
  nth_error (chunks n k l) i = Some (firstn n (skipn (i * n) l)).
Proof.
  revert l i; induction k; intros l i Hi; [lia|].
  destruct i; simpl.
  - reflexivity.
  - rewrite IHk by lia. rewrite skipn_skipn. do 3 f_equal. lia.
Qed.

Lemma nth_error_concat_uniform n rows i r j :
  uniform n rows ->
  nth_error rows i = Some r ->
  j < n ->
  nth_error (concat rows) (i * n + j) = nth_error r j.
Proof.
  intros Hu; revert i; induction Hu as [|r0 rows Hr _ IH]; intros i Hi Hj.
  - destruct i; discriminate.
  - destruct i; simpl in *.
    + injection Hi as ->. apply nth_error_app1. lia.
    + rewrite nth_error_app2 by lia.
      replace (n + i * n + j - length r0) with (i * n + j) by lia.
      now apply IH.
Qed.

Lemma uniform_nth_error n rows i r :
  uniform n rows -> nth_error rows i = Some r -> length r = n.
Proof.
  intros Hu Hi. unfold uniform in Hu. rewrite Forall_forall in Hu.
  apply Hu. eapply nth_error_In; eauto.
Qed.

(** *** Transposition *)

Lemma transpose_length n rows :
  uniform n rows -> length (transpose n rows) = n.
Proof.
  induction 1 as [|r rows Hr _ IH]; simpl.
  - apply repeat_length.
  - rewrite length_map, length_combine, IH, Hr. lia.
Qed.

Lemma transpose_uniform n rows :
  uniform n rows -> uniform (length rows) (transpose n rows).
Proof.
  induction 1 as [|r rows Hr _ IH]; simpl.
  - apply Forall_forall. intros x Hx. apply repeat_spec in Hx. now subst.
  - apply Forall_forall. intros x Hx.
    apply in_map_iff in Hx. destruct Hx as [[a c] [<- Hin]].
    apply in_combine_r in Hin. simpl.
    unfold uniform in IH. rewrite Forall_forall in IH.
    now rewrite (IH _ Hin).
Qed.

(** Entry [i] of column [j] is entry [j] of row [i]. *)
Lemma nth_error_transpose n rows j col i r :
  uniform n rows ->
  nth_error (transpose n rows) j = Some col ->
  nth_error rows i = Some r ->
  nth_error col i = nth_error r j.
Proof.
  intros Hu; revert j col i r.
  induction Hu as [|r0 rows Hr Hu IH]; intros j col i r Hc Hi.
  - destruct i; discriminate.
  - simpl in Hc. rewrite nth_error_map in Hc.
    destruct (nth_error (combine r0 (transpose n rows)) j) as [[a c]|] eqn:E;
      [|discriminate].
    simpl in Hc. injection Hc as <-.
    assert (Ha : nth_error r0 j = Some a /\ nth_error (transpose n rows) j = Some c).
    { clear -E. revert E. generalize (transpose n rows). revert j.
      induction r0 as [|x r0 IHr]; intros j cs E; simpl in E.
      - destruct j; discriminate.
      - destruct cs as [|c0 cs]; [destruct j; discriminate|].
        destruct j; simpl in *.
        + injection E as -> ->. auto.
        + now apply IHr. }
    destruct Ha as [Ha Hc'].
    destruct i; simpl in *.
    + injection Hi as <-. now rewrite Ha.
    + eapply IH; eauto.
Qed.

End RowLemmas.

(** ** Batches of matrices *)

Section BlockLemmas.
Context {A : Type}.

Lemma to3_length b m n (l : list A) : length (to3 b m n l) = b.
Proof. unfold to3. now rewrite length_map, chunks_length. Qed.

Lemma to3_blocks b m n (l : list A) :
  length l = b * (m * n) -> Forall (block_ok m n) (to3 b m n l).
Proof.
  intros Hl. unfold to3. apply Forall_map.
  eapply Forall_impl; [|apply (chunks_uniform (m * n) b l Hl)].
  intros blk Hblk. split.
  - apply chunks_length.
  - now apply chunks_uniform.
Qed.

Lemma concat_block_length m n (blk : list (list A)) :
  block_ok m n blk -> length (concat blk) = m * n.
Proof. intros [Hm Hu]. now rewrite (concat_uniform_length Hu), Hm. Qed.

Lemma of3_blocks_uniform m n (X : list (list (list A))) :
  Forall (block_ok m n) X -> uniform (m * n) (map (@concat A) X).
Proof.
  intros HX. apply Forall_map. eapply Forall_impl; [|exact HX].
  intros blk. apply concat_block_length.
Qed.

Lemma of3_length m n (X : list (list (list A))) :
  Forall (block_ok m n) X -> length (of3 X) = length X * (m * n).
Proof.
  intros HX. unfold of3.
  rewrite (concat_uniform_length (of3_blocks_uniform HX)).
  now rewrite length_map.
Qed.

Lemma to3_of3 m n (X : list (list (list A))) :
  Forall (block_ok m n) X -> to3 (length X) m n (of3 X) = X.
Proof.
  intros HX. unfold to3, of3.
  rewrite <- (length_map (@concat A) X).
  rewrite (chunks_concat (of3_blocks_uniform HX)).
  rewrite map_map.
  rewrite <- (map_id X) at 2. apply map_ext_in.
  intros blk Hblk. rewrite Forall_forall in HX.
  destruct (HX _ Hblk) as [Hm Hu]. rewrite <- Hm.
  now apply chunks_concat.
Qed.

Lemma transpose_block m n (blk : list (list A)) :
  block_ok m n blk -> block_ok n m (transpose n blk).
Proof.
  intros [Hm Hu]. split.
  - now apply transpose_length.
  - rewrite <- Hm. now apply transpose_uniform.
Qed.

Lemma map_transpose_blocks m n (X : list (list (list A))) :
  Forall (block_ok m n) X -> Forall (block_ok n m) (map (transpose n) X).
Proof.
  intros HX. apply Forall_map. eapply Forall_impl; [|exact HX].
  intros blk. apply transpose_block.
Qed.

End BlockLemmas.

Lemma matmul_block {A B C : Type} (dotp : list A -> list B -> C) (p : nat)
      (a : list (list A)) (b : list (list B)) :
  uniform p b -> block_ok (length a) p (matmul dotp p a b).
Proof.
  intros Hb. unfold matmul. split.
  - apply length_map.
  - apply Forall_map. apply Forall_forall. intros row _.
    rewrite length_map. now apply transpose_length.
Qed.

(** The data of a batched product of [b] pairs of matrices. *)
Lemma bmm_data_blocks {A B C : Type} (dotp : list A -> list B -> C)
      (b n m p : nat) (x : list A) (y : list B) :
  length y = b * (m * p) ->
  Forall (block_ok n p)
         (map (fun xy => matmul dotp p (fst xy) (snd xy))
              (combine (to3 b n m x) (to3 b m p y))).
Proof.
  intros Hy. apply Forall_map. apply Forall_forall. intros [bx by_] Hin.
  simpl.
  assert (Hbx : length bx = n).
  { apply in_combine_l in Hin. unfold to3 in Hin.
    apply in_map_iff in Hin. destruct Hin as (c & <- & _). apply chunks_length. }
  assert (Hby : block_ok m p by_).
  { apply in_combine_r in Hin.
    pose proof (to3_blocks b m p y Hy) as HF. rewrite Forall_forall in HF. auto. }
  rewrite <- Hbx. apply matmul_block. apply Hby.
Qed.

Lemma bmm_data_length {A B C : Type} (dotp : list A -> list B -> C)
      (b n m p : nat) (x : list A) (y : list B) :
  length y = b * (m * p) ->
  length (of3 (map (fun xy => matmul dotp p (fst xy) (snd xy))
                   (combine (to3 b n m x) (to3 b m p y))))
  = b * (n * p).
Proof.
  intros Hy. rewrite (of3_length (@bmm_data_blocks _ _ _ dotp b n m p x y Hy)).
  now rewrite length_map, length_combine, !to3_length, Nat.min_id.
Qed.

(** ** Addressing entries *)

Lemma index_lt (m n a i : nat) : a < m -> i < n -> a * n + i < m * n.
Proof.
  intros Ha Hi.
  assert ((a + 1) * n <= m * n) by (apply Nat.mul_le_mono_r; lia). lia.
Qed.

Section Addressing.
Context {A : Type}.

Lemma nth_error_row_at n i (l : list A) j :
  j < n -> nth_error (row_at n i l) j = nth_error l (i * n + j).
Proof.
  intros Hj. unfold row_at. rewrite nth_error_firstn.
  apply Nat.ltb_lt in Hj. rewrite Hj. apply nth_error_skipn.
Qed.

Lemma row_at_concat n (rows : list (list A)) i r :
  uniform n rows -> nth_error rows i = Some r ->
  row_at n i (concat rows) = r.
Proof.
  intros Hu Hi.
  assert (Hlt : i < length rows) by (apply nth_error_Some; congruence).
  pose proof (nth_error_chunks n (concat rows) Hlt) as Hc.
  rewrite (chunks_concat Hu) in Hc. unfold row_at. congruence.
Qed.

Lemma to3_row b m n (l : list A) i j :
  i < b -> j < m ->
  exists blk, nth_error (to3 b m n l) i = Some blk /\
              nth_error blk j = Some (row_at n (i * m + j) l).
Proof.
  intros Hi Hj. unfold to3. eexists. split.
  - rewrite nth_error_map, (nth_error_chunks _ _ Hi). reflexivity.
  - rewrite (nth_error_chunks _ _ Hj). f_equal. unfold row_at.
    rewrite skipn_firstn_comm, firstn_firstn, skipn_skipn.
    replace (Nat.min n (m * n - j * n)) with n by nia.
    do 2 f_equal. lia.
Qed.

Lemma nth_error_of3 m n (X : list (list (list A))) i blk j r k :
  Forall (block_ok m n) X ->
  nth_error X i = Some blk ->
  nth_error blk j = Some r ->
  k < n ->
  nth_error (of3 X) ((i * m + j) * n + k) = nth_error r k.
Proof.
  intros HX Hi Hj Hk.
  assert (Hblk : block_ok m n blk).
  { rewrite Forall_forall in HX. apply HX. eapply nth_error_In; eauto. }
  destruct Hblk as [Hm Hu].
  assert (Hjm : j < m) by (rewrite <- Hm; apply nth_error_Some; congruence).
  unfold of3.
  replace ((i * m + j) * n + k) with (i * (m * n) + (j * n + k)) by lia.
  rewrite (@nth_error_concat_uniform _ (m * n) _ i (concat blk)).
  - now apply nth_error_concat_uniform.
  - now apply of3_blocks_uniform.
  - rewrite nth_error_map, Hi. reflexivity.
  - nia.
Qed.

Lemma nth_error_flat_repeat k (xs : list A) i j :
  j < k ->
  nth_error (flat_map (fun x => repeat x k) xs) (i * k + j) = nth_error xs i.
Proof.
  intros Hj. revert i. induction xs as [|x xs IH]; intros i; simpl.
  - destruct i; simpl; now rewrite ?nth_error_nil.
  - destruct i; simpl.
    + rewrite nth_error_app1 by (rewrite repeat_length; lia).
      now apply nth_error_repeat.
    + rewrite nth_error_app2 by (rewrite repeat_length; lia).
      rewrite repeat_length.
      replace (k + i * k + j - k) with (i * k + j) by lia. apply IH.
Qed.

Lemma length_flat_repeat k (xs : list A) :
  length (flat_map (fun x => repeat x k) xs) = length xs * k.
Proof.
  induction xs as [|x xs IH]; simpl; auto.
  rewrite length_app, repeat_length, IH. lia.
Qed.

End Addressing.

Lemma uniform_flat_repeat {A : Type} n k (rows : list (list A)) :
  uniform n rows -> uniform n (flat_map (fun r => repeat r k) rows).
Proof.
  intros Hu. apply Forall_forall. intros r Hr.
  apply in_flat_map in Hr. destruct Hr as (r0 & Hin & Hrep).
  apply repeat_spec in Hrep. subst r.
  unfold uniform in Hu. rewrite Forall_forall in Hu. auto.
Qed.

Lemma skipn_combine {A B : Type} n (l : list A) (l' : list B) :
  skipn n (combine l l') = combine (skipn n l) (skipn n l').
Proof.
  revert l l'. induction n; intros l l'; simpl; auto.
  destruct l, l'; simpl; auto. now destruct (skipn n l).
Qed.

Lemma row_at_map_combine {A B C : Type} (f : A * B -> C) n i
      (l : list A) (l' : list B) :
  row_at n i (map f (combine l l'))
  = map f (combine (row_at n i l) (row_at n i l')).
Proof.
  unfold row_at.
  now rewrite skipn_map, firstn_map, skipn_combine, combine_firstn.
Qed.

(** ** Float arithmetic *)

Lemma fmax_pos : (0 < fmax)%R.
Proof. unfold fmax. lra. Qed.

Lemma rnd_fin (r : R) : (Rabs r <= fmax)%R -> rnd r = Fin r.
Proof.
  intros H. unfold rnd. destruct (Rle_dec (Rabs r) fmax); [reflexivity|contradiction].
Qed.

Lemma rnd_overflow (r : R) : (fmax < r)%R -> rnd r = PosInf.
Proof.
  intros H. unfold rnd. pose proof fmax_pos as Hf.
  destruct (Rle_dec (Rabs r) fmax) as [Hle|_].
  - pose proof (Rle_abs r). lra.
  - destruct (Rlt_dec 0 r); [reflexivity|lra].
Qed.

Lemma inf_times_pos (positive : bool) (a : R) :
  (0 < a)%R -> inf_times positive a = if positive then PosInf else NegInf.
Proof.
  intros Ha. unfold inf_times.
  destruct (Req_dec_T a 0); [lra|]. destruct (Rlt_dec 0 a); [reflexivity|lra].
Qed.

Lemma ext_mul_fin (a b : R) :
  (Rabs (a * b) <= fmax)%R -> ext_mul (Fin a) (Fin b) = Fin (a * b).
Proof. apply rnd_fin. Qed.

Lemma ext_add_fin (a b : R) :
  (Rabs (a + b) <= fmax)%R -> ext_add (Fin a) (Fin b) = Fin (a + b).
Proof. apply rnd_fin. Qed.

Lemma ext_mul_overflow (a b : R) :
  (fmax < a * b)%R -> ext_mul (Fin a) (Fin b) = PosInf.
Proof. apply rnd_overflow. Qed.

Lemma unit_scale : (1 / sqrt (INR 1) = 1)%R.
Proof. change (INR 1) with 1%R. rewrite sqrt_1. lra. Qed.

(** Evaluation of float expressions on given numbers. *)
Ltac float_bound := unfold fmax; first [ apply Rabs_le; split; lra | lra ].

Ltac float_eval :=
  rewrite ?unit_scale;
  repeat first [ rewrite ext_mul_fin by float_bound
               | rewrite ext_add_fin by float_bound
               | rewrite rnd_fin by float_bound
               | rewrite ext_mul_overflow by float_bound
               | rewrite inf_times_pos by lra
               | progress cbn [ext_add ext_mul] ].

Lemma ext_mul_nan_r (x : ext) : ext_mul x NaNx = NaNx.
Proof. now destruct x. Qed.

(** ** Softmax of one row *)

Lemma softmax_row_length (row : list ext) :
  length (softmax_row row) = length row.
Proof.
  unfold softmax_row.
  destruct (existsb is_nan row || existsb is_posinf row
            || negb (existsb is_finite row));
    apply length_map.
Qed.

Lemma exp_ext_nonneg (x : ext) : (0 <= exp_ext x)%R.
Proof.
  destruct x; simpl; try lra. left. apply exp_pos.
Qed.

Lemma sum_exp_nonneg (row : list ext) : (0 <= sumR (map exp_ext row))%R.
Proof.
  induction row as [|x row IH]; simpl; [lra|].
  pose proof (exp_ext_nonneg x). lra.
Qed.

Lemma sum_exp_pos (row : list ext) :
  existsb is_finite row = true -> (0 < sumR (map exp_ext row))%R.
Proof.
  induction row as [|x row IH]; simpl; [discriminate|].
  intros H. pose proof (sum_exp_nonneg row) as Hs.
  destruct x as [r| | |]; simpl in *.
  - pose proof (exp_pos r). lra.
  - specialize (IH H). lra.
  - specialize (IH H). lra.
  - specialize (IH H). lra.
Qed.

(** A row with a finite entry and neither [nan] nor [inf]: the plain
    quotient. *)
Lemma softmax_row_regular (row : list ext) :
  existsb is_nan row = false ->
  existsb is_posinf row = false ->
  existsb is_finite row = true ->
  softmax_row row
  = map (fun x => Val (exp_ext x / sumR (map exp_ext row))) row.
Proof. intros Hn Hp Hf. unfold softmax_row. now rewrite Hn, Hp, Hf. Qed.

Lemma softmax_row_masked (row : list ext) (l : nat) :
  existsb is_nan row = false ->
  existsb is_posinf row = false ->
  existsb is_finite row = true ->
  nth_error row l = Some NegInf ->
  nth_error (softmax_row row) l = Some (Val 0).
Proof.
  intros Hn Hp Hf Hl. rewrite (softmax_row_regular row Hn Hp Hf).
  rewrite nth_error_map, Hl. simpl. do 2 f_equal.
  unfold Rdiv. apply Rmult_0_l.
Qed.

(** A row without a finite entry is [nan] throughout. *)
Lemma softmax_row_degenerate (row : list ext) (l : nat) (x : ext) :
  existsb is_finite row = false ->
  nth_error row l = Some x ->
  nth_error (softmax_row row) l = Some NaN.
Proof.
  intros Hf Hl. unfold softmax_row. rewrite Hf, orb_true_r.
  now rewrite nth_error_map, Hl.
Qed.

Lemma sumR_map_div (es : list R) (s : R) :
  sumR (map (fun e => e / s) es)%R = (sumR es / s)%R.
Proof.
  induction es as [|e es IH]; simpl.
  - unfold Rdiv. now rewrite Rmult_0_l.
  - rewrite IH. unfold Rdiv. ring.
Qed.

Lemma softmax_row_sum (row : list ext) :
  existsb is_nan row = false ->
  existsb is_posinf row = false ->
  existsb is_finite row = true ->
  exists ws : list R,
    softmax_row row = map Val ws /\ length ws = length row /\ sumR ws = 1%R.
Proof.
  intros Hn Hp Hf. rewrite (softmax_row_regular row Hn Hp Hf).
  set (s := sumR (map exp_ext row)).
  exists (map (fun e => e / s)%R (map exp_ext row)). repeat split.
  - now rewrite !map_map.
  - now rewrite !length_map.
  - rewrite sumR_map_div. fold s. apply Rinv_r.
    pose proof (sum_exp_pos row Hf). unfold s. lra.
Qed.

Lemma existsb_none {A : Type} (f : A -> bool) (l : list A) :
  (forall x, In x l -> f x = false) -> existsb f l = false.
Proof.
  induction l as [|x l IH]; intros Hf; simpl; auto.
  rewrite Hf by (simpl; auto). apply IH. intros y Hy. apply Hf. simpl. auto.
Qed.

(** *** Rows after [masked_fill] *)

(** In a filled row every entry is [-inf] or the score of an unmasked
    position. *)
Lemma In_fill_row (srow : list ext) (mrow : list Z) (v : ext) :
  In v (map fill (combine srow mrow)) ->
  v = NegInf \/
  exists j z, nth_error srow j = Some v /\ nth_error mrow j = Some z /\ z <> 0%Z.
Proof.
  revert mrow. induction srow as [|x srow IH]; intros [|z0 mrow] Hv;
    simpl in Hv; try tauto.
  destruct Hv as [<-|Hv].
  - unfold fill. simpl. destruct (Z.eqb_spec z0 0); [now left|].
    right. exists 0, z0. auto.
  - destruct (IH mrow Hv) as [->|(j & z & Hs & Hm & Hz)]; [now left|].
    right. exists (S j), z. auto.
Qed.

(** When the scores of the unmasked positions are finite, the filled
    row has neither [nan] nor [inf]. *)
Lemma fill_regular (srow : list ext) (mrow : list Z) :
  (forall j z, nth_error mrow j = Some z -> z <> 0%Z -> finite (nth_error srow j)) ->
  existsb is_nan (map fill (combine srow mrow)) = false /\
  existsb is_posinf (map fill (combine srow mrow)) = false.
Proof.
  intros Hfin. split; apply existsb_none; intros v Hv;
    (destruct (@In_fill_row _ _ _ Hv) as [->|(j & z & Hs & Hm & Hz)]; [reflexivity|]);
    destruct (Hfin j z Hm Hz) as (r & Hr); rewrite Hs in Hr;
    injection Hr as ->; reflexivity.
Qed.

Lemma fill_finite (srow : list ext) (mrow : list Z) (j : nat) (z : Z) :
  length srow = length mrow ->
  nth_error mrow j = Some z -> z <> 0%Z ->
  finite (nth_error srow j) ->
  existsb is_finite (map fill (combine srow mrow)) = true.
Proof.
  revert mrow j. induction srow as [|x srow IH]; intros [|z0 mrow] j Hlen Hj Hz Hf;
    simpl in *; try discriminate.
  - destruct j; discriminate.
  - destruct j; simpl in *.
    + injection Hj as ->. unfold fill. simpl.
      apply Z.eqb_neq in Hz. rewrite Hz. destruct Hf as (r & Hr).
      injection Hr as ->. reflexivity.
    + rewrite (IH mrow j); auto. apply orb_true_r.
Qed.

Lemma fill_all_masked (srow : list ext) (mrow : list Z) :
  (forall z, In z mrow -> z = 0%Z) ->
  existsb is_finite (map fill (combine srow mrow)) = false.
Proof.
  revert mrow. induction srow as [|x srow IH]; intros [|z0 mrow] Hz; simpl; auto.
  unfold fill at 1. simpl. rewrite (Hz z0) by (simpl; auto). simpl.
  apply IH. intros z Hin. apply Hz. simpl. auto.
Qed.

Lemma fill_masked (srow : list ext) (mrow : list Z) (l : nat) :
  length srow = length mrow ->
  nth_error mrow l = Some 0%Z ->
  nth_error (map fill (combine srow mrow)) l = Some NegInf.
Proof.
  revert mrow l. induction srow as [|x srow IH]; intros [|z0 mrow] l Hlen Hl;
    simpl in *; try discriminate.
  - destruct l; discriminate.
  - destruct l; simpl in *.
    + injection Hl as ->. reflexivity.
    + apply IH; auto.
Qed.

(** ** Shapes through the tensor operations *)

Lemma view_ok {A : Type} (t : Tensor A) (s : list nat) :
  numel s = numel (shape t) -> view t s = Ok (mkTensor s (data t)).
Proof. intros H. unfold view. now rewrite H, Nat.eqb_refl. Qed.

Lemma view_err {A : Type} (t : Tensor A) (s : list nat) :
  numel s <> numel (shape t) -> view t s = Err RuntimeError.
Proof.
  intros H. unfold view. apply Nat.eqb_neq in H. now rewrite H.
Qed.

Lemma list_nat_eqb_refl (s : list nat) : list_nat_eqb s s = true.
Proof. unfold list_nat_eqb. destruct (list_eq_dec Nat.eq_dec s s); congruence. Qed.

Lemma list_nat_eqb_eq (s1 s2 : list nat) : list_nat_eqb s1 s2 = true <-> s1 = s2.
Proof.
  unfold list_nat_eqb. destruct (list_eq_dec Nat.eq_dec s1 s2); split; congruence.
Qed.

Lemma conv_out_1x1 (n : nat) : 0 < n -> Layers.conv_out n 1 1 0 = Ok n.
Proof.
  intros Hn. unfold Layers.conv_out.
  replace (1 <=? n + 2 * 0) with true by (symmetry; apply Nat.leb_le; lia).
  change (1 <=? 1) with true. cbn [andb]. f_equal.
  rewrite Nat.div_1_r. lia.
Qed.

Lemma conv_out_3x3 (n : nat) : 0 < n -> Layers.conv_out n 3 1 1 = Ok n.
Proof.
  intros Hn. unfold Layers.conv_out.
  replace (3 <=? n + 2 * 1) with true by (symmetry; apply Nat.leb_le; lia).
  change (1 <=? 1) with true. cbn [andb]. f_equal.
  rewrite Nat.div_1_r. lia.
Qed.

(** The data a 1x1 convolution with [c] output rows writes for [b]
    samples of [e] channels and [n] positions. *)
Lemma conv1x1_data_length (b c e n : nat) (wrows : list (list ext)) (x : list ext) :
  length x = b * (e * n) ->
  length wrows = c ->
  length (of3 (map (matmul dot n wrows) (to3 b e n x))) = b * (c * n).
Proof.
  intros Hx Hc.
  assert (HF : Forall (block_ok c n) (map (matmul dot n wrows) (to3 b e n x))).
  { apply Forall_map. eapply Forall_impl; [|apply (to3_blocks b e n x Hx)].
    intros blk [_ Hu]. rewrite <- Hc. now apply matmul_block. }
  rewrite (of3_length HF). now rewrite length_map, to3_length.
Qed.

Lemma attention_weights_length (B hw L : nat) (scores : list ext) (mdata : list Z) :
  length scores = B * hw * L ->
  length mdata = B * L ->
  length (attention_weights B hw L scores mdata) = B * (L * hw).
Proof.
  intros Hs Hmd. unfold attention_weights.
  set (reps := flat_map (fun row => repeat row hw) (chunks L B mdata)).
  set (filled := map fill (combine scores (concat reps))).
  set (srows := map softmax_row (chunks L (B * hw) filled)).
  assert (Hreps : uniform L reps).
  { apply uniform_flat_repeat. apply chunks_uniform. lia. }
  assert (Hfilled : length filled = B * hw * L).
  { unfold filled. rewrite length_map, length_combine.
    rewrite (concat_uniform_length Hreps). unfold reps.
    rewrite length_flat_repeat, chunks_length. lia. }
  assert (Hsrows : uniform L srows).
  { unfold srows. apply Forall_map.
    eapply Forall_impl; [|apply (chunks_uniform L (B * hw) filled Hfilled)].
    intros r Hr. simpl in Hr. now rewrite softmax_row_length. }
  assert (Hsoft : length (concat srows) = B * (hw * L)).
  { rewrite (concat_uniform_length Hsrows). unfold srows.
    rewrite length_map, chunks_length. lia. }
  rewrite (of3_length (map_transpose_blocks (to3_blocks B hw L _ Hsoft))).
  now rewrite length_map, to3_length.
Qed.

Lemma scale_step (scaled : bool) (n : nat) (t : Tensor ext) :
  (scaled = true -> 0 < n) ->
  (if scaled then scale_by_sqrt n t else Ok t) = Ok (scaled_by scaled n t).
Proof.
  intros Hn. unfold scaled_by. destruct scaled; [|reflexivity].
  unfold scale_by_sqrt. specialize (Hn eq_refl).
  now replace (n =? 0) with false by (symmetry; apply Nat.eqb_neq; lia).
Qed.

Lemma scaled_by_shape (scaled : bool) (n : nat) (t : Tensor ext) :
  shape (scaled_by scaled n t) = shape t.
Proof. now destruct scaled. Qed.

Lemma scaled_by_length (scaled : bool) (n : nat) (t : Tensor ext) :
  length (data (scaled_by scaled n t)) = length (data t).
Proof. destruct scaled; [apply length_map|reflexivity]. Qed.

Lemma scores_ok (self : AttentionModule.t) (images words : Tensor R)
      (scaled : bool) (B C H W E L : nat) (m : Tensor Z) :
  shape images = [B; C; H; W] ->
  shape words = [B; E; L] ->
  AttentionModule.mask self = Some m ->
  shape m = [B; L] ->
  in_planes (AttentionModule.conv1 self) = E ->
  out_planes (AttentionModule.conv1 self) = C ->
  0 < C -> 0 < L ->
  attention_scores self images words scaled
  = Ok (scores_of self images words scaled B C H W E L).
Proof.
  intros Hi Hw Hm Hms Hin Hout HC HL.
  unfold attention_scores, AttentionModule.mask_shape.
  rewrite Hi, Hw, Hm, Hms. cbn [unpack4 unpack3 unpack2 bind].
  unfold unsqueeze3. rewrite Hw. cbn [length Nat.leb firstn skipn app bind].
  unfold Conv1x1_forward. cbn [shape]. rewrite Hin, Nat.eqb_refl, Hout.
  replace (C =? 0) with false by (symmetry; apply Nat.eqb_neq; lia).
  cbn [andb negb].
  rewrite (conv_out_1x1 HL). cbn [bind Layers.conv_out Nat.leb Nat.add Nat.mul andb Nat.sub Nat.div Nat.divmod fst].
  unfold squeeze3. cbn [shape nth_error firstn skipn app bind data].
  rewrite view_ok by (rewrite Hi; simpl; lia). cbn [bind].
  unfold transpose12 at 1. cbn [shape bind].
  unfold bmm, bmm_with at 1. cbn [to_ext shape data]. rewrite !Nat.eqb_refl.
  cbn [andb bind].
  rewrite (@scale_step scaled _ _ (fun _ => HC)). cbn [bind].
  rewrite view_ok by (rewrite scaled_by_shape; simpl; lia).
  unfold scores_of, flat_images, conv_words, to_ext. cbn [shape data].
  rewrite ?Hin, ?Hout. reflexivity.
Qed.

Lemma scores_of_length (self : AttentionModule.t) (images words : Tensor R)
      (scaled : bool) (B C H W E L : nat) :
  shape words = [B; E; L] -> wf words ->
  out_planes (AttentionModule.conv1 self) = C ->
  length (data (scores_of self images words scaled B C H W E L)) = B * (H * W) * L.
Proof.
  intros Hw Hwf Hout. unfold scores_of. cbn [data].
  rewrite scaled_by_length. cbn [data].
  rewrite bmm_data_length; [lia|].
  unfold conv_words. cbn [data]. rewrite Hout.
  rewrite (@conv1x1_data_length B C E (L * 1)); [lia| |apply chunks_length].
  rewrite length_map. unfold wf in Hwf. rewrite Hwf, Hw. simpl. lia.
Qed.

Lemma forward_ok (self : AttentionModule.t) (images words : Tensor R)
      (scaled : bool) (B C H W E L : nat) (m : Tensor Z) :
  shape images = [B; C; H; W] ->
  shape words = [B; E; L] ->
  AttentionModule.mask self = Some m ->
  shape m = [B; L] ->
  in_planes (AttentionModule.conv1 self) = E ->
  out_planes (AttentionModule.conv1 self) = C ->
  0 < C -> 0 < L ->
  AttentionModule.forward self images words scaled
  = Ok (mkTensor [B; C; H; W]
          (weighted_context B C L (H * W)
             (data (conv_words self B E L words))
             (attention_weights B (H * W) L
                (data (scores_of self images words scaled B C H W E L)) (data m))),
        mkTensor [B; L; H; W]
          (attention_weights B (H * W) L
             (data (scores_of self images words scaled B C H W E L)) (data m))).
Proof.
  intros Hi Hw Hm Hms Hin Hout HC HL.
  unfold AttentionModule.forward, AttentionModule.mask_shape, AttentionModule.get_mask.
  rewrite Hi, Hw, Hm, Hms. cbn [unpack4 unpack3 unpack2 bind].
  unfold unsqueeze3. rewrite Hw. cbn [length Nat.leb firstn skipn app bind].
  unfold Conv1x1_forward. cbn [shape]. rewrite Hin, Nat.eqb_refl, Hout.
  replace (C =? 0) with false by (symmetry; apply Nat.eqb_neq; lia).
  cbn [andb negb].
  rewrite (conv_out_1x1 HL). cbn [bind Layers.conv_out Nat.leb Nat.add Nat.mul andb Nat.sub Nat.div Nat.divmod fst].
  unfold squeeze3. cbn [shape nth_error firstn skipn app bind data].
  rewrite view_ok by (rewrite Hi; simpl; lia). cbn [bind].
  unfold transpose12 at 1. cbn [shape bind].
  unfold bmm at 1. unfold bmm_with at 1. cbn [to_ext shape data]. rewrite !Nat.eqb_refl.
  cbn [andb bind].
  rewrite (@scale_step scaled _ _ (fun _ => HC)). cbn [bind].
  rewrite view_ok by (rewrite scaled_by_shape; simpl; lia). cbn [bind].
  unfold repeat_interleave. rewrite Hms. cbn [bind].
  unfold masked_fill. cbn [shape data].
  replace (B * H * W) with (B * (H * W)) by lia.
  rewrite list_nat_eqb_refl. cbn [bind].
  unfold softmax_dim1. cbn [shape data bind].
  rewrite view_ok by (simpl; lia). cbn [bind].
  unfold transpose12 at 1. cbn [shape data bind].
  unfold bmm, bmm_with. cbn [fl_tensor_to_ext shape data]. rewrite !Nat.eqb_refl.
  cbn [andb bind].
  rewrite !view_ok by (simpl; lia). cbn [bind data].
  unfold weighted_context, attention_weights, scores_of, flat_images, conv_words, to_ext.
  cbn [shape data]. rewrite ?Hin, ?Hout.
  replace (B * H * W) with (B * (H * W)) by lia. reflexivity.
Qed.

Lemma weighted_context_length (B C L hw : nat) (wproj : list ext) (attn : list fl) :
  length attn = B * (L * hw) ->
  length (weighted_context B C L hw wproj attn) = B * (C * hw).
Proof.
  intros Ha. unfold weighted_context. apply bmm_data_length.
  now rewrite length_map.
Qed.

(** ** The entries of the attention map *)

(** Entry [(b, l, p)] of the attention map is entry [l] of the softmax
    of the masked score row of sample [b] at location [p]. *)
Lemma attention_weights_entry (B hw L : nat) (scores : list ext) (mdata : list Z)
      (b l p : nat) :
  length scores = B * hw * L ->
  length mdata = B * L ->
  b < B -> l < L -> p < hw ->
  nth_error (attention_weights B hw L scores mdata) ((b * L + l) * hw + p)
  = nth_error
      (softmax_row (map fill (combine (row_at L (b * hw + p) scores)
                                      (row_at L b mdata)))) l.
Proof.
  intros Hs Hmd Hb Hl Hp. unfold attention_weights.
  set (mrows := chunks L B mdata).
  set (reps := flat_map (fun row => repeat row hw) mrows).
  set (filled := map fill (combine scores (concat reps))).
  set (rows := chunks L (B * hw) filled).
  set (srows := map softmax_row rows).
  assert (Hmrows : uniform L mrows) by (apply chunks_uniform; lia).
  assert (Hreps : uniform L reps) by now apply uniform_flat_repeat.
  assert (Hrepslen : length reps = B * hw).
  { unfold reps. rewrite length_flat_repeat. unfold mrows.
    now rewrite chunks_length. }
  assert (Hfilled : length filled = B * hw * L).
  { unfold filled. rewrite length_map, length_combine.
    rewrite (concat_uniform_length Hreps), Hrepslen. lia. }
  assert (Hrows : uniform L rows) by (apply chunks_uniform; lia).
  assert (Hsrows : uniform L srows).
  { unfold srows. apply Forall_map. eapply Forall_impl; [|exact Hrows].
    intros r Hr. now rewrite softmax_row_length. }
  assert (Hsrowslen : length srows = B * hw).
  { unfold srows, rows. now rewrite length_map, chunks_length. }
  assert (Hsoft : length (concat srows) = B * (hw * L)).
  { rewrite (concat_uniform_length Hsrows). lia. }
  pose proof (to3_blocks B hw L (concat srows) Hsoft) as HX.
  destruct (@to3_row _ B hw L (concat srows) b p Hb Hp) as (blk & Hblk & Hrow).
  assert (Hblk_ok : block_ok hw L blk).
  { rewrite Forall_forall in HX. apply HX. eapply nth_error_In; eauto. }
  destruct (transpose_block Hblk_ok) as [HTlen HTu].
  destruct (nth_error (transpose L blk) l) as [col|] eqn:Hcol.
  2:{ apply nth_error_None in Hcol. lia. }
  rewrite (@nth_error_of3 _ L hw _ b (transpose L blk) l col p
             (map_transpose_blocks HX)); auto.
  2:{ rewrite nth_error_map, Hblk. reflexivity. }
  rewrite (@nth_error_transpose _ L blk l col p _ (proj2 Hblk_ok) Hcol Hrow).
  f_equal.
  assert (Hi : b * hw + p < B * hw) by nia.
  assert (Hsr : nth_error srows (b * hw + p)
                = Some (softmax_row (row_at L (b * hw + p) filled))).
  { unfold srows, rows.
    rewrite nth_error_map, (@nth_error_chunks _ L (B * hw) filled _ Hi).
    reflexivity. }
  rewrite (@row_at_concat _ L srows _ _ Hsrows Hsr). f_equal.
  unfold filled at 1. rewrite row_at_map_combine. do 2 f_equal.
  apply (@row_at_concat _ L reps _ _ Hreps).
  unfold reps. rewrite (@nth_error_flat_repeat _ hw mrows b p Hp).
  unfold mrows. now rewrite (@nth_error_chunks _ L B mdata b Hb).
Qed.

(** ** AttentionModule.forward *)

Lemma row_entry {A : Type} (n L : nat) (t : Tensor A) (i j : nat) :
  shape t = [n; L] -> j < L ->
  nth_error (row_at L i (data t)) j = get2 t i j.
Proof.
  intros Hs Hj. unfold get2. rewrite Hs. now apply nth_error_row_at.
Qed.

Section ForwardValid.
Variables (self : AttentionModule.t) (images words : Tensor R) (scaled : bool).
Variables (B C H W E L : nat) (m : Tensor Z).
Hypothesis Himages : shape images = [B; C; H; W].
Hypothesis Hwords : shape words = [B; E; L].
Hypothesis Hmask : AttentionModule.mask self = Some m.
Hypothesis Hmshape : shape m = [B; L].
Hypothesis Hin : in_planes (AttentionModule.conv1 self) = E.
Hypothesis Hout : out_planes (AttentionModule.conv1 self) = C.
Hypothesis HC : 0 < C.
Hypothesis Hwf_words : wf words.
Hypothesis Hwf_mask : wf m.

(** On inputs of matching shapes every entry of the attention map is
    an entry of the softmax of a masked score row. *)
Lemma forward_entries :
  0 < L ->
  exists (s ctx : Tensor ext) (attn : Tensor fl),
    attention_scores self images words scaled = Ok s /\
    AttentionModule.forward self images words scaled = Ok (ctx, attn) /\
    shape s = [B * H * W; L] /\
    length (data s) = B * (H * W) * L /\
    shape ctx = [B; C; H; W] /\
    shape attn = [B; L; H; W] /\
    forall b l y x, b < B -> l < L -> y < H -> x < W ->
      get4 attn b l y x
      = nth_error
          (softmax_row
             (map fill (combine (row_at L (b * (H * W) + (y * W + x)) (data s))
                                (row_at L b (data m))))) l.
Proof.
  intros HL.
  pose proof (@scores_ok self images words scaled B C H W E L m
                Himages Hwords Hmask Hmshape Hin Hout HC HL) as Hsc.
  pose proof (@forward_ok self images words scaled B C H W E L m
                Himages Hwords Hmask Hmshape Hin Hout HC HL) as Hfw.
  pose proof (@scores_of_length self images words scaled B C H W E L
                Hwords Hwf_words Hout) as Hlen.
  eexists _, _, _. split; [exact Hsc|]. split; [exact Hfw|].
  split; [reflexivity|]. split; [exact Hlen|].
  split; [reflexivity|]. split; [reflexivity|].
  intros b l y x Hb Hl Hy Hx. unfold get4. cbn [shape data].
  replace (((b * L + l) * H + y) * W + x)
    with ((b * L + l) * (H * W) + (y * W + x)) by lia.
  apply attention_weights_entry; auto.
  - unfold wf in Hwf_mask. rewrite Hwf_mask, Hmshape. simpl. lia.
  - now apply index_lt.
Qed.

End ForwardValid.

Lemma mask_row_entry (B L : nat) (m : Tensor Z) (b j : nat) :
  shape m = [B; L] -> j < L ->
  nth_error (row_at L b (data m)) j = get2 m b j.
Proof. apply row_entry. Qed.

Lemma masked_rows_aligned (B hw L : nat) (m : Tensor Z) (scores : list ext)
      (b i : nat) :
  shape m = [B; L] -> wf m ->
  length scores = B * hw * L ->
  b < B -> i < B * hw ->
  length (row_at L i scores) = length (row_at L b (data m)).
Proof.
  intros Hms Hwf Hs Hb Hi. unfold row_at.
  rewrite !length_firstn, !length_skipn, Hs.
  unfold wf in Hwf. rewrite Hwf, Hms. simpl. nia.
Qed.

Lemma row_at_length {A : Type} (n i : nat) (l : list A) :
  (i + 1) * n <= length l -> length (row_at n i l) = n.
Proof.
  intros Hl. unfold row_at. rewrite length_firstn, length_skipn. lia.
Qed.

Lemma nth_error_map_Val (ws : list R) (l : nat) :
  l < length ws -> nth_error (map Val ws) l = Some (Val (nth l ws 0%R)).
Proof.
  intros Hl. rewrite nth_error_map.
  now rewrite (nth_error_nth' ws 0%R Hl).
Qed.

(** The filled score row of sample [b] at one location, when the scores
    of the unmasked words are finite. *)
Lemma filled_row_regular (B L n : nat) (m : Tensor Z) (s : Tensor ext) (b i : nat) :
  shape m = [B; L] -> shape s = [n; L] ->
  (forall j z, j < L -> get2 m b j = Some z -> z <> 0%Z -> finite (get2 s i j)) ->
  forall j z, nth_error (row_at L b (data m)) j = Some z -> z <> 0%Z ->
    finite (nth_error (row_at L i (data s)) j).
Proof.
  intros Hms Hss Hfin j z Hj Hz.
  assert (HjL : j < L).
  { assert (Hjr : j < length (row_at L b (data m)))
      by (apply nth_error_Some; congruence).
    unfold row_at in Hjr. rewrite length_firstn in Hjr. lia. }
  rewrite (@row_entry _ n L s i j Hss HjL).
  apply (Hfin j z HjL); auto.
  now rewrite <- (@mask_row_entry B L m b j Hms HjL).
Qed.

(** C3: for images of shape (B, C, H, W), words of shape (B, E, L) and a
    set mask of shape (B, L), on a module built for C channels and
    embedding size E, [forward] returns a weighted context of shape
    (B, C, H, W) and an attention map of shape (B, L, H, W), each with
    exactly the entries its shape announces.  The sizes C, E and L are
    positive. *)
Theorem forward_shapes (self : AttentionModule.t) (images words : Tensor R)
        (scaled : bool) (B C H W E L : nat) (m : Tensor Z) :
  shape images = [B; C; H; W] ->
  shape words = [B; E; L] ->
  AttentionModule.mask self = Some m ->
  shape m = [B; L] ->
  in_planes (AttentionModule.conv1 self) = E ->
  out_planes (AttentionModule.conv1 self) = C ->
  0 < E -> 0 < C ->
  0 < L ->
  wf words -> wf m ->
  exists (ctx : Tensor ext) (attn : Tensor fl),
    AttentionModule.forward self images words scaled = Ok (ctx, attn) /\
    shape ctx = [B; C; H; W] /\
    shape attn = [B; L; H; W] /\
    wf ctx /\ wf attn.
Proof.
  intros Hi Hw Hm Hms Hin Hout HE HC HL Hwfw Hwfm.
  pose proof (@forward_ok self images words scaled B C H W E L m
                Hi Hw Hm Hms Hin Hout HC HL) as Hfw.
  pose proof (@scores_of_length self images words scaled B C H W E L
                Hw Hwfw Hout) as Hlen.
  assert (Hattn : length (attention_weights B (H * W) L
             (data (scores_of self images words scaled B C H W E L)) (data m))
           = B * (L * (H * W))).
  { apply attention_weights_length; auto.
    unfold wf in Hwfm. rewrite Hwfm, Hms. simpl. lia. }
  eexists _, _. split; [exact Hfw|]. split; [reflexivity|].
  split; [reflexivity|]. unfold wf. cbn [shape data]. split.
  - rewrite weighted_context_length by exact Hattn. simpl. lia.
  - rewrite Hattn. simpl. lia.
Qed.

Lemma forward_shapes_witness :
  exists (ctx : Tensor ext) (attn : Tensor fl),
    AttentionModule.forward (AttentionModule.apply_mask ex_module ex_mask)
                            ex_images ex_words true = Ok (ctx, attn) /\
    shape ctx = [1; 1; 1; 2] /\
    shape attn = [1; 2; 1; 2] /\
    wf ctx /\ wf attn.
Proof.
  apply (@forward_shapes (AttentionModule.apply_mask ex_module ex_mask)
           ex_images ex_words true 1 1 1 2 1 2 ex_mask);
    first [ reflexivity | lia ].
Defined.

(** C1, as amended: in a sample whose mask row has a non-zero entry,
    at every spatial location where the scores of the unmasked words
    are finite floats (none has overflowed), every position with mask
    value 0 has attention weight exactly 0.  The module is one built
    for the channel count C and the embedding size E of the inputs,
    both positive. *)
Theorem masked_weight_zero (self : AttentionModule.t) (images words : Tensor R)
        (scaled : bool) (B C H W E L : nat) (m : Tensor Z) (s : Tensor ext)
        (b l y x : nat) :
  shape images = [B; C; H; W] ->
  shape words = [B; E; L] ->
  AttentionModule.mask self = Some m ->
  shape m = [B; L] ->
  in_planes (AttentionModule.conv1 self) = E ->
  out_planes (AttentionModule.conv1 self) = C ->
  0 < E -> 0 < C ->
  wf words -> wf m ->
  b < B -> l < L -> y < H -> x < W ->
  get2 m b l = Some 0%Z ->
  (exists j z, j < L /\ get2 m b j = Some z /\ z <> 0%Z) ->
  attention_scores self images words scaled = Ok s ->
  (forall j z, j < L -> get2 m b j = Some z -> z <> 0%Z ->
     finite (get2 s (b * (H * W) + (y * W + x)) j)) ->
  exists (ctx : Tensor ext) (attn : Tensor fl),
    AttentionModule.forward self images words scaled = Ok (ctx, attn) /\
    get4 attn b l y x = Some (Val 0).
Proof.
  intros Hi Hw Hm Hms Hin Hout HE HC Hwfw Hwfm Hb Hl Hy Hx Hzero
         (j & z & Hj & Hz & Hnz) Hs Hfin.
  destruct (@forward_entries self images words scaled B C H W E L m
              Hi Hw Hm Hms Hin Hout HC Hwfw Hwfm ltac:(lia))
    as (s' & ctx & attn & Hs' & Hfw & Hss & Hlen & _ & _ & Hent).
  rewrite Hs in Hs'. injection Hs' as <-.
  exists ctx, attn. split; [exact Hfw|].
  rewrite (Hent b l y x Hb Hl Hy Hx).
  set (i := b * (H * W) + (y * W + x)) in *.
  assert (Hal : length (row_at L i (data s)) = length (row_at L b (data m))).
  { apply (@masked_rows_aligned B (H * W) L m (data s) b _ Hms Hwfm Hlen Hb).
    apply index_lt; auto. now apply index_lt. }
  pose proof (@filled_row_regular B L _ m s b i Hms Hss Hfin) as Hreg.
  destruct (fill_regular _ _ Hreg) as (Hnan & Hpos).
  apply softmax_row_masked; auto.
  - apply (@fill_finite _ _ j z Hal); auto.
    + now rewrite (@mask_row_entry B L m b j Hms Hj).
    + apply (Hreg j z); auto. now rewrite (@mask_row_entry B L m b j Hms Hj).
  - apply fill_masked; auto.
    now rewrite (@mask_row_entry B L m b l Hms Hl).
Qed.

(** X9: a sample whose mask row is zero throughout has [nan] at
    every entry of its attention map, whatever the scores are.  The
    channel count C and the embedding size E are positive. *)
Theorem fully_masked_sample_nan (self : AttentionModule.t) (images words : Tensor R)
      (scaled : bool) (B C H W E L : nat) (m : Tensor Z) (b l y x : nat) :
  shape images = [B; C; H; W] ->
  shape words = [B; E; L] ->
  AttentionModule.mask self = Some m ->
  shape m = [B; L] ->
  in_planes (AttentionModule.conv1 self) = E ->
  out_planes (AttentionModule.conv1 self) = C ->
  0 < E -> 0 < C ->
  wf words -> wf m ->
  b < B -> l < L -> y < H -> x < W ->
  (forall j, j < L -> get2 m b j = Some 0%Z) ->
  exists (ctx : Tensor ext) (attn : Tensor fl),
    AttentionModule.forward self images words scaled = Ok (ctx, attn) /\
    get4 attn b l y x = Some NaN.
Proof.
  intros Hi Hw Hm Hms Hin Hout HE HC Hwfw Hwfm Hb Hl Hy Hx Hzero.
  destruct (@forward_entries self images words scaled B C H W E L m
              Hi Hw Hm Hms Hin Hout HC Hwfw Hwfm ltac:(lia))
    as (s & ctx & attn & _ & Hfw & _ & Hlen & _ & _ & Hent).
  exists ctx, attn. split; [exact Hfw|].
  rewrite (Hent b l y x Hb Hl Hy Hx).
  assert (Hal : length (row_at L (b * (H * W) + (y * W + x)) (data s))
                = length (row_at L b (data m))).
  { apply (@masked_rows_aligned B (H * W) L m (data s) b _ Hms Hwfm Hlen Hb).
    apply index_lt; auto. now apply index_lt. }
  apply softmax_row_degenerate with (x := NegInf).
  - apply fill_all_masked. intros z Hz.
    apply In_nth_error in Hz. destruct Hz as (j & Hj).
    assert (Hjl : j < L).
    { assert (Hjr : j < length (row_at L b (data m)))
        by (apply nth_error_Some; congruence).
      unfold row_at in Hjr. rewrite length_firstn in Hjr. lia. }
    rewrite (@mask_row_entry B L m b j Hms Hjl), (Hzero j Hjl) in Hj. congruence.
  - apply fill_masked; auto.
    rewrite (@mask_row_entry B L m b l Hms Hl). now apply Hzero.
Qed.

(** C1 as stated fails on a fully masked row: every weight of the row
    is [nan], which is below no bound. *)
Lemma masked_weight_counterexample :
  ~ exists eps : R,
      forall (ctx : Tensor ext) (attn : Tensor fl),
        AttentionModule.forward (AttentionModule.apply_mask ex_module ex_mask_zero)
                                ex_images ex_words true = Ok (ctx, attn) ->
        forall b l y x w, b < 1 -> l < 2 -> y < 1 -> x < 2 ->
          get2 ex_mask_zero b l = Some 0%Z ->
          get4 attn b l y x = Some w ->
          fl_le w eps.
Proof.
  intros (eps & Hclaim).
  exact (Hclaim _ _ eq_refl 0 0 0 0 NaN ltac:(lia) ltac:(lia) ltac:(lia) ltac:(lia)
                eq_refl eq_refl).
Qed.

(** The scores of the example call are finite. *)
Lemma ex_scores_finite (i j : nat) :
  i < 2 -> j < 2 ->
  finite (get2 (scores_of (AttentionModule.apply_mask ex_module ex_mask)
                          ex_images ex_words true 1 1 1 2 1 2) i j).
Proof.
  intros Hi Hj. unfold finite, get2, scores_of, scaled_by, scale, flat_images,
    conv_words, to_ext.
  cbn -[rnd ext_mul ext_add INR sqrt Rdiv nth_error]. float_eval.
  destruct i as [|[|i]]; [| |lia];
    (destruct j as [|[|j]]; [| |lia]); eexists; reflexivity.
Qed.

Lemma masked_weight_zero_witness :
  exists (ctx : Tensor ext) (attn : Tensor fl),
    AttentionModule.forward (AttentionModule.apply_mask ex_module ex_mask)
                            ex_images ex_words true = Ok (ctx, attn) /\
    get4 attn 0 1 0 1 = Some (Val 0).
Proof.
  apply (@masked_weight_zero (AttentionModule.apply_mask ex_module ex_mask)
           ex_images ex_words true 1 1 1 2 1 2 ex_mask
           (scores_of (AttentionModule.apply_mask ex_module ex_mask)
                      ex_images ex_words true 1 1 1 2 1 2) 0 1 0 1);
    try reflexivity; try lia.
  - exists 0, 1%Z. repeat split; [lia | discriminate].
  - intros j z Hj _ _. apply ex_scores_finite; [simpl; lia | exact Hj].
Defined.

(** C2 as stated fails when a score overflows: on finite inputs whose
    products exceed the largest float, the scores of the unmasked word
    are [inf], the softmax divides infinity by infinity, and every
    weight of the row is [nan], although the mask row has an unmasked
    position. *)
Lemma attention_sum_counterexample :
  (forall b', b' < 1 ->
     exists j z, j < 2 /\ get2 ex_mask b' j = Some z /\ z <> 0%Z) /\
  exists (ctx : Tensor ext) (attn : Tensor fl),
    AttentionModule.forward (AttentionModule.apply_mask ex_module ex_mask)
                            ex_images_large ex_words_large true = Ok (ctx, attn) /\
    forall l y x, l < 2 -> y < 1 -> x < 2 -> get4 attn 0 l y x = Some NaN.
Proof.
  split.
  { intros b' Hb'. exists 0, 1%Z. replace b' with 0 by lia.
    repeat split; [lia | discriminate]. }
  eexists _, _. split.
  { apply (@forward_ok (AttentionModule.apply_mask ex_module ex_mask)
             ex_images_large ex_words_large true 1 1 1 2 1 2 ex_mask);
      first [ reflexivity | lia ]. }
  intros l y x Hl Hy Hx.
  unfold get4, attention_weights, scores_of, scaled_by, scale, flat_images,
    conv_words, to_ext.
  cbn -[rnd ext_mul ext_add INR sqrt Rdiv nth_error softmax_row fill].
  float_eval.
  destruct y as [|y]; [|lia].
  destruct l as [|[|l]]; [| |lia];
    (destruct x as [|[|x]]; [| |lia]); reflexivity.
Qed.

(** C2, as amended: when every row of the set mask has an unmasked
    position, at every sample and spatial location where the scores of
    the unmasked words are finite floats (none has overflowed), the
    attention weights are real numbers that sum to 1 over the word
    axis.  The module is one built for the channel count C and the
    embedding size E of the inputs, both positive. *)
Theorem attention_sums_to_one (self : AttentionModule.t) (images words : Tensor R)
        (scaled : bool) (B C H W E L : nat) (m : Tensor Z) (s : Tensor ext)
        (b y x : nat) :
  shape images = [B; C; H; W] ->
  shape words = [B; E; L] ->
  AttentionModule.mask self = Some m ->
  shape m = [B; L] ->
  in_planes (AttentionModule.conv1 self) = E ->
  out_planes (AttentionModule.conv1 self) = C ->
  0 < E -> 0 < C ->
  wf words -> wf m ->
  (forall b', b' < B -> exists j z, j < L /\ get2 m b' j = Some z /\ z <> 0%Z) ->
  b < B -> y < H -> x < W ->
  attention_scores self images words scaled = Ok s ->
  (forall j z, j < L -> get2 m b j = Some z -> z <> 0%Z ->
     finite (get2 s (b * (H * W) + (y * W + x)) j)) ->
  exists (ctx : Tensor ext) (attn : Tensor fl) (ws : list R),
    AttentionModule.forward self images words scaled = Ok (ctx, attn) /\
    length ws = L /\
    (forall l, l < L -> get4 attn b l y x = Some (Val (nth l ws 0%R))) /\
    sumR ws = 1%R.
Proof.
  intros Hi Hw Hm Hms Hin Hout HE HC Hwfw Hwfm Hrows Hb Hy Hx Hs Hfin.
  destruct (Hrows b Hb) as (j & z & Hj & Hz & Hnz).
  destruct (@forward_entries self images words scaled B C H W E L m
              Hi Hw Hm Hms Hin Hout HC Hwfw Hwfm ltac:(lia))
    as (s' & ctx & attn & Hs' & Hfw & Hss & Hlen & _ & _ & Hent).
  rewrite Hs in Hs'. injection Hs' as <-.
  set (i := b * (H * W) + (y * W + x)) in *.
  assert (Hi' : i < B * (H * W)).
  { apply index_lt; auto. now apply index_lt. }
  pose proof (@masked_rows_aligned B (H * W) L m (data s) b i Hms Hwfm Hlen Hb Hi')
    as Hal.
  assert (Hmrow : length (row_at L b (data m)) = L).
  { apply row_at_length. unfold wf in Hwfm. rewrite Hwfm, Hms. simpl. nia. }
  set (row := map fill (combine (row_at L i (data s)) (row_at L b (data m)))).
  assert (Hrow : length row = L).
  { unfold row. rewrite length_map, length_combine. lia. }
  pose proof (@filled_row_regular B L _ m s b i Hms Hss Hfin) as Hreg.
  destruct (fill_regular _ _ Hreg) as (Hnan & Hpos).
  assert (Hfinite : existsb is_finite row = true).
  { apply (@fill_finite _ _ j z Hal); auto.
    - now rewrite (@mask_row_entry B L m b j Hms Hj).
    - apply (Hreg j z); auto. now rewrite (@mask_row_entry B L m b j Hms Hj). }
  destruct (softmax_row_sum row Hnan Hpos Hfinite) as (ws & Hsm & Hwslen & Hsum).
  exists ctx, attn, ws. split; [exact Hfw|]. split; [lia|]. split; [|exact Hsum].
  intros l Hl. rewrite (Hent b l y x Hb Hl Hy Hx). fold i. fold row.
  rewrite Hsm. apply nth_error_map_Val. lia.
Qed.

Lemma attention_sums_to_one_witness :
  exists (ctx : Tensor ext) (attn : Tensor fl) (ws : list R),
    AttentionModule.forward (AttentionModule.apply_mask ex_module ex_mask)
                            ex_images ex_words true = Ok (ctx, attn) /\
    length ws = 2 /\
    (forall l, l < 2 -> get4 attn 0 l 0 1 = Some (Val (nth l ws 0%R))) /\
    sumR ws = 1%R.
Proof.
  apply (@attention_sums_to_one (AttentionModule.apply_mask ex_module ex_mask)
           ex_images ex_words true 1 1 1 2 1 2 ex_mask
           (scores_of (AttentionModule.apply_mask ex_module ex_mask)
                      ex_images ex_words true 1 1 1 2 1 2) 0 0 1);
    try reflexivity; try lia.
  - intros b' Hb'. exists 0, 1%Z. replace b' with 0 by lia.
    repeat split; [lia | discriminate].
  - intros j z Hj _ _. apply ex_scores_finite; [simpl; lia | exact Hj].
Defined.

(** C10: with the mask field still [None], [forward] raises: the
    [AttributeError] of [self.mask.shape], or the [ValueError] of an
    earlier shape unpacking; it returns no attention. *)
Theorem forward_without_mask (self : AttentionModule.t) (images words : Tensor R)
        (scaled : bool) :
  AttentionModule.mask self = None ->
  exists e : error,
    AttentionModule.forward self images words scaled = Err e /\
    (e = AttributeError \/ e = ValueError).
Proof.
  intros Hm. unfold AttentionModule.forward, AttentionModule.mask_shape.
  rewrite Hm.
  destruct (unpack4 (shape images)) as [[[[batch nc] h] w]|e] eqn:E4; cbn [bind].
  - destruct (unpack3 (shape words)) as [[[batch' emb] seq_len]|e] eqn:E3; cbn [bind].
    + eauto.
    + exists e. split; auto. right.
      unfold unpack3 in E3.
      destruct (shape words) as [|? [|? [|? [|]]]]; congruence.
  - exists e. split; auto. right.
    unfold unpack4 in E4.
    destruct (shape images) as [|? [|? [|? [|? [|]]]]]; congruence.
Qed.

Lemma forward_without_mask_witness :
  exists e : error,
    AttentionModule.forward ex_module ex_images ex_words true = Err e /\
    (e = AttributeError \/ e = ValueError).
Proof.
  apply (@forward_without_mask ex_module ex_images ex_words true). reflexivity.
Defined.

(** ** A mask that disagrees with the words *)

Lemma forward_mismatch_core (self : AttentionModule.t) (images words : Tensor R)
      (scaled : bool) (m : Tensor Z) (Bm Lm Bw E L Bi C H W : nat) :
  AttentionModule.mask self = Some m ->
  shape m = [Bm; Lm] ->
  shape words = [Bw; E; L] ->
  shape images = [Bi; C; H; W] ->
  Bm <> Bw \/ Lm <> L ->
  exists e : error,
    AttentionModule.forward self images words scaled = Err e /\
    (e = RuntimeError \/ (scaled = true /\ C = 0 /\ e = ZeroDivisionError)).
Proof.
  intros Hm Hms Hw Hi Hneq.
  unfold AttentionModule.forward, AttentionModule.mask_shape, AttentionModule.get_mask.
  rewrite Hi, Hw, Hm, Hms. cbn [unpack4 unpack3 unpack2 bind].
  unfold unsqueeze3. rewrite Hw. cbn [length Nat.leb firstn skipn app bind].
  unfold Conv1x1_forward. cbn [shape].
  split_if; [|raises].
  destruct (Nat.eq_dec L 0) as [->|HL]; [raises|].
  rewrite (@conv_out_1x1 L) by lia.
  cbn [bind Layers.conv_out Nat.leb Nat.add Nat.mul andb Nat.sub Nat.div Nat.divmod fst].
  unfold squeeze3. cbn [shape nth_error firstn skipn app bind data].
  unfold view at 1. split_if; [|raises]. cbn [bind].
  unfold transpose12 at 1. cbn [shape bind].
  unfold bmm at 1. unfold bmm_with at 1. cbn [to_ext shape data].
  split_if; [|raises]. cbn [bind].
  assert (Hsc : forall t : Tensor ext,
    (exists t', (if scaled then scale_by_sqrt C t else Ok t) = Ok t' /\
                shape t' = shape t) \/
    (scaled = true /\ C = 0 /\
     (if scaled then scale_by_sqrt C t else Ok t) = Err ZeroDivisionError)).
  { intros t. destruct scaled; [|left; eauto]. unfold scale_by_sqrt.
    destruct (C =? 0) eqn:EC.
    - right. apply Nat.eqb_eq in EC. auto.
    - left. eexists; split; eauto. }
  match goal with |- context [if scaled then scale_by_sqrt C ?t else _] =>
    destruct (Hsc t) as [(t' & -> & Hst')|(Hs & HC & ->)] end.
  2:{ raises. }
  cbn [bind shape] in *.
  unfold view at 1. rewrite Hst'. split_if; [|raises]. cbn [bind].
  unfold repeat_interleave. rewrite Hms. cbn [bind].
  unfold masked_fill. cbn [shape data].
  replace (Bm * H * W) with (Bm * (H * W)) in * by lia.
  rewrite list_nat_eqb_refl. cbn [bind].
  unfold softmax_dim1. cbn [shape data bind].
  unfold view at 1. cbn [shape]. split_if; [|raises]. cbn [bind].
  unfold transpose12 at 1. cbn [shape data bind].
  unfold bmm, bmm_with. cbn [fl_tensor_to_ext shape data].
  split_if; [|raises].
  exfalso.
  repeat match goal with
         | Hb : (_ && _)%bool = true |- _ => apply andb_prop in Hb; destruct Hb
         | Hb : (_ =? _) = true |- _ => apply Nat.eqb_eq in Hb
         end.
  lia.
Qed.

(** C4: when the batch or the sequence length of the held mask
    disagrees with that of [words], [forward] raises and returns no
    tensor; on rank-4 images with a positive channel count the error is
    the [RuntimeError] of the [view] or [bmm] that meets the mismatch. *)
Theorem forward_mask_mismatch (self : AttentionModule.t) (images words : Tensor R)
        (scaled : bool) (m : Tensor Z) (Bm Lm Bw E L : nat) :
  AttentionModule.mask self = Some m ->
  shape m = [Bm; Lm] ->
  shape words = [Bw; E; L] ->
  Bm <> Bw \/ Lm <> L ->
  (exists e : error, AttentionModule.forward self images words scaled = Err e) /\
  (forall Bi C H W : nat,
      shape images = [Bi; C; H; W] -> 0 < C ->
      AttentionModule.forward self images words scaled = Err RuntimeError).
Proof.
  intros Hm Hms Hw Hneq. split.
  - destruct (unpack4 (shape images)) as [[[[Bi C] H] W]|e] eqn:E4.
    + assert (Hi : shape images = [Bi; C; H; W]).
      { unfold unpack4 in E4.
        destruct (shape images) as [|? [|? [|? [|? [|]]]]]; congruence. }
      destruct (@forward_mismatch_core self images words scaled m
                  Bm Lm Bw E L Bi C H W Hm Hms Hw Hi Hneq) as (e & He & _).
      eauto.
    + exists e. unfold AttentionModule.forward. now rewrite E4.
  - intros Bi C H W Hi HC.
    destruct (@forward_mismatch_core self images words scaled m
                Bm Lm Bw E L Bi C H W Hm Hms Hw Hi Hneq)
      as (e & He & [->|(_ & HC0 & _)]); [exact He | lia].
Qed.

Lemma forward_mask_mismatch_witness :
  (exists e : error,
      AttentionModule.forward (AttentionModule.apply_mask ex_module ex_mask_short)
                              ex_images ex_words true = Err e) /\
  (forall Bi C H W : nat,
      shape ex_images = [Bi; C; H; W] -> 0 < C ->
      AttentionModule.forward (AttentionModule.apply_mask ex_module ex_mask_short)
                              ex_images ex_words true = Err RuntimeError).
Proof.
  apply (@forward_mask_mismatch (AttentionModule.apply_mask ex_module ex_mask_short)
           ex_images ex_words true ex_mask_short 1 1 1 1 2);
    try reflexivity.
  right. lia.
Defined.

Example forward_mask_short :
  AttentionModule.forward (AttentionModule.apply_mask ex_module ex_mask_short)
                          ex_images ex_words true = Err RuntimeError.
Proof. reflexivity. Qed.

Example forward_mask_two_samples :
  AttentionModule.forward (AttentionModule.apply_mask ex_module ex_mask_two)
                          ex_images ex_words true = Err RuntimeError.
Proof. reflexivity. Qed.

(** ** The gated linear unit *)

Lemma nth_error_map_combine {A B C : Type} (f : A * B -> C)
      (l : list A) (l' : list B) (k : nat) (a : A) (b : B) :
  nth_error l k = Some a -> nth_error l' k = Some b ->
  nth_error (map f (combine l l')) k = Some (f (a, b)).
Proof.
  revert l' k. induction l as [|x l IH]; intros [|y l'] k Ha Hb;
    destruct k; simpl in *; try discriminate.
  - congruence.
  - now apply IH.
Qed.

(** Entry [k] of channel block [b] after keeping the first [n] entries
    of every block of width [w]. *)
Lemma nth_error_slice_to {A : Type} (w n B : nat) (l : list A) (b k : nat) :
  length l = B * w -> n <= w -> b < B -> k < n ->
  nth_error (concat (map (firstn n) (chunks w B l))) (b * n + k)
  = nth_error l (b * w + k).
Proof.
  intros Hl Hn Hb Hk.
  pose proof (chunks_uniform w B l Hl) as Hu.
  assert (Hu' : uniform n (map (firstn n) (chunks w B l))).
  { apply Forall_map. eapply Forall_impl; [|exact Hu].
    intros r Hr. simpl in Hr. rewrite length_firstn. lia. }
  rewrite (@nth_error_concat_uniform _ n _ b (firstn n (row_at w b l)) k Hu').
  - rewrite nth_error_firstn.
    replace (k <? n) with true by (symmetry; apply Nat.ltb_lt; lia).
    apply nth_error_row_at. lia.
  - rewrite nth_error_map, (@nth_error_chunks _ w B l b Hb). reflexivity.
  - exact Hk.
Qed.

(** The same after dropping the first [n] entries of every block. *)
Lemma nth_error_slice_from {A : Type} (w n B : nat) (l : list A) (b k : nat) :
  length l = B * w -> n <= w -> b < B -> k < w - n ->
  nth_error (concat (map (skipn n) (chunks w B l))) (b * (w - n) + k)
  = nth_error l (b * w + (n + k)).
Proof.
  intros Hl Hn Hb Hk.
  pose proof (chunks_uniform w B l Hl) as Hu.
  assert (Hu' : uniform (w - n) (map (skipn n) (chunks w B l))).
  { apply Forall_map. eapply Forall_impl; [|exact Hu].
    intros r Hr. simpl in Hr. rewrite length_skipn. lia. }
  rewrite (@nth_error_concat_uniform _ (w - n) _ b (skipn n (row_at w b l)) k Hu').
  - rewrite nth_error_skipn. apply nth_error_row_at. lia.
  - rewrite nth_error_map, (@nth_error_chunks _ w B l b Hb). reflexivity.
  - exact Hk.
Qed.

Lemma nth_error_in_range {A : Type} (l : list A) (k : nat) :
  k < length l -> exists a, nth_error l k = Some a.
Proof.
  intros Hk. destruct (nth_error l k) as [a|] eqn:E; eauto.
  apply nth_error_None in E. lia.
Qed.

(** C9: on an input with an even channel count 2C the gated linear
    unit returns C channels, entry (b, c, i) being entry (b, c, i) of
    the input times the sigmoid of entry (b, C + c, i); on an odd
    channel count its assertion fails. *)
Theorem GLU_forward_spec (x : Tensor R) (B nc : nat) (rest : list nat) :
  shape x = B :: nc :: rest ->
  wf x ->
  (forall C : nat, nc = 2 * C ->
     exists y : Tensor R,
       Layers.GLU_forward x = Ok y /\
       shape y = B :: C :: rest /\
       wf y /\
       forall b c i, b < B -> c < C -> i < numel rest ->
         exists lo hi : R,
           nth_error (data x) ((b * nc + c) * numel rest + i) = Some lo /\
           nth_error (data x) ((b * nc + (C + c)) * numel rest + i) = Some hi /\
           nth_error (data y) ((b * C + c) * numel rest + i)
           = Some (lo * Layers.sigmoid hi)%R) /\
  (Nat.odd nc = true -> Layers.GLU_forward x = Err AssertionError).
Proof.
  intros Hs Hwf. unfold wf in Hwf. rewrite Hs in Hwf. simpl in Hwf.
  unfold Layers.GLU_forward, size. rewrite Hs. cbn [nth_error bind].
  split.
  - intros C ->. set (n := numel rest) in *.
    replace ((2 * C) mod 2) with 0
      by (symmetry; rewrite Nat.mul_comm; apply Nat.Div0.mod_mul).
    replace (2 * C / 2) with C
      by (symmetry; rewrite Nat.mul_comm; apply Nat.div_mul; lia).
    cbn [Nat.eqb].
    unfold Layers.slice_to, Layers.slice_from. rewrite Hs. cbn [bind].
    fold n. unfold Layers.mul, Layers.F_sigmoid. cbn [shape data].
    replace (Nat.min C (2 * C)) with C by lia.
    replace (2 * C - C) with C by lia.
    rewrite list_nat_eqb_refl.
    set (w := 2 * C * n).
    set (lo := concat (map (firstn (C * n)) (chunks w B (data x)))).
    set (hi := concat (map (skipn (C * n)) (chunks w B (data x)))).
    assert (Hl : length (data x) = B * w) by (unfold w; lia).
    assert (Hlo : length lo = B * (C * n)).
    { unfold lo.
      rewrite (@concat_uniform_length _ (C * n)), length_map, chunks_length; auto.
      apply Forall_map.
      eapply Forall_impl; [|apply (chunks_uniform w B (data x) Hl)].
      intros r Hr. simpl in Hr. rewrite length_firstn. unfold w in Hr. lia. }
    assert (Hhi : length hi = B * (C * n)).
    { unfold hi.
      rewrite (@concat_uniform_length _ (C * n)), length_map, chunks_length; auto.
      apply Forall_map.
      eapply Forall_impl; [|apply (chunks_uniform w B (data x) Hl)].
      intros r Hr. simpl in Hr. rewrite length_skipn. unfold w in Hr. lia. }
    eexists. split; [reflexivity|]. split; [reflexivity|]. split.
    + unfold wf. cbn [shape data].
      change (numel (B :: C :: rest)) with (B * (C * n)).
      rewrite length_map, length_combine, length_map. lia.
    + intros b c i Hb Hc Hi. cbn [data].
      assert (Hk : c * n + i < C * n) by now apply index_lt.
      assert (Hk2 : b * w + (C * n + (c * n + i)) < length (data x)).
      { rewrite Hl. apply index_lt; auto. unfold w. lia. }
      destruct (@nth_error_in_range _ (data x) (b * w + (c * n + i)) ltac:(lia))
        as (vlo & Hvlo).
      destruct (nth_error_in_range (data x) Hk2) as (vhi & Hvhi).
      exists vlo, vhi.
      replace ((b * (2 * C) + c) * n + i) with (b * w + (c * n + i))
        by (unfold w; lia).
      replace ((b * (2 * C) + (C + c)) * n + i)
        with (b * w + (C * n + (c * n + i))) by (unfold w; lia).
      split; [exact Hvlo|]. split; [exact Hvhi|].
      replace ((b * C + c) * n + i) with (b * (C * n) + (c * n + i)) by lia.
      apply (@nth_error_map_combine _ _ _
               (fun p : R * R => (fst p * snd p)%R) lo (map Layers.sigmoid hi)
               _ vlo (Layers.sigmoid vhi)).
      * unfold lo. rewrite nth_error_slice_to; auto. unfold w. lia.
      * rewrite nth_error_map. unfold hi.
        replace (b * (C * n) + (c * n + i))
          with (b * (w - C * n) + (c * n + i)) by (unfold w; lia).
        rewrite nth_error_slice_from; auto.
        -- now rewrite Hvhi.
        -- unfold w. lia.
        -- unfold w. lia.
  - intros Hodd.
    assert (Hmod : nc mod 2 = 1).
    { rewrite <- Nat.bit0_mod. unfold Nat.testbit. rewrite Hodd. reflexivity. }
    rewrite Hmod. reflexivity.
Qed.

Lemma GLU_forward_spec_witness :
  (forall C : nat, 2 = 2 * C ->
     exists y : Tensor R,
       Layers.GLU_forward ex_glu_input = Ok y /\
       shape y = [1; C; 2] /\
       wf y /\
       forall b c i, b < 1 -> c < C -> i < numel [2] ->
         exists lo hi : R,
           nth_error (data ex_glu_input) ((b * 2 + c) * numel [2] + i) = Some lo /\
           nth_error (data ex_glu_input) ((b * 2 + (C + c)) * numel [2] + i)
           = Some hi /\
           nth_error (data y) ((b * C + c) * numel [2] + i)
           = Some (lo * Layers.sigmoid hi)%R) /\
  (Nat.odd 2 = true -> Layers.GLU_forward ex_glu_input = Err AssertionError).
Proof.
  apply (@GLU_forward_spec ex_glu_input 1 2 [2]); reflexivity.
Defined.

Example GLU_odd_channels :
  Layers.GLU_forward (mkTensor [1; 3; 1] [1; 2; 3]%R) = Err AssertionError.
Proof. reflexivity. Qed.

(** The shape rule of the unit agrees with the unit on values. *)
Lemma GLU_shape_sound (x y : Tensor R) :
  Layers.GLU_forward x = Ok y -> Layers.GLU_shape (shape x) = Ok (shape y).
Proof.
  unfold Layers.GLU_forward, Layers.GLU_shape, size.
  destruct (shape x) as [|b [|nc rest]] eqn:Hs; cbn [nth_error bind]; try discriminate.
  destruct (nc mod 2 =? 0) eqn:Hm; [|discriminate].
  unfold Layers.slice_to, Layers.slice_from. rewrite Hs. cbn [bind].
  unfold Layers.mul. cbn [shape].
  destruct (list_nat_eqb _ _); [|discriminate].
  intros Hy. injection Hy as <-. cbn [shape].
  do 2 f_equal. change (fst (Nat.divmod nc 1 0 1)) with (nc / 2).
  f_equal. symmetry. apply Nat.min_l. apply Nat.Div0.div_le_upper_bound. lia.
Qed.

(** ** Blocks of layers on shapes *)

Lemma GLU_shape_double (b c : nat) (rest : list nat) :
  Layers.GLU_shape (b :: c * 2 :: rest) = Ok (b :: c :: rest).
Proof.
  unfold Layers.GLU_shape.
  rewrite Nat.Div0.mod_mul. cbn [Nat.eqb].
  rewrite Nat.div_mul by lia. reflexivity.
Qed.

Lemma Conv2d_shape (cin cout k st p b h w h' w' : nat) :
  0 < cout ->
  Layers.conv_out h k st p = Ok h' ->
  Layers.conv_out w k st p = Ok w' ->
  Layers.layer_shape (Layers.Conv2d cin cout k st p) [b; cin; h; w]
  = Ok [b; cout; h'; w'].
Proof.
  intros Hc Hh Hw. cbn [Layers.layer_shape].
  rewrite Nat.eqb_refl.
  replace (cout =? 0) with false by (symmetry; apply Nat.eqb_neq; lia).
  cbn [andb negb]. rewrite Hh, Hw. reflexivity.
Qed.

Lemma conv3x3_shape (cin cout b h w : nat) :
  0 < cout -> 0 < h -> 0 < w ->
  Layers.layer_shape (Layers.conv3x3 cin cout) [b; cin; h; w] = Ok [b; cout; h; w].
Proof.
  intros Hc Hh Hw. unfold Layers.conv3x3.
  apply Conv2d_shape; auto using conv_out_3x3.
Qed.

Lemma Upsample_shape (k b c h w : nat) :
  0 < h -> 0 < w ->
  Layers.layer_shape (Layers.Upsample k) [b; c; h; w] = Ok [b; c; h * k; w * k].
Proof.
  intros Hh Hw. cbn [Layers.layer_shape].
  replace (1 <=? h) with true by (symmetry; apply Nat.leb_le; lia).
  replace (1 <=? w) with true by (symmetry; apply Nat.leb_le; lia).
  reflexivity.
Qed.

Lemma one_value_rank4 (b c h w : nat) :
  Layers.one_value_per_channel [b; c; h; w] = (b * (h * w) =? 1).
Proof.
  unfold Layers.one_value_per_channel, numel. cbn [fold_right].
  now rewrite Nat.mul_1_r.
Qed.

(** A batch normalization in training mode, given more than one value
    per channel, or none. *)
Lemma BatchNorm2d_shape (n b h w : nat) :
  b * (h * w) <> 1 ->
  Layers.layer_shape (Layers.BatchNorm2d n) [b; n; h; w] = Ok [b; n; h; w].
Proof.
  intros Hv. cbn [Layers.layer_shape]. rewrite one_value_rank4.
  apply Nat.eqb_neq in Hv. now rewrite Hv, Nat.eqb_refl.
Qed.

Lemma GLU_layer_shape (b c : nat) (rest : list nat) :
  Layers.layer_shape Layers.GLU (b :: c * 2 :: rest) = Ok (b :: c :: rest).
Proof. apply GLU_shape_double. Qed.

(** [upBlock]: twice the height and width, [out_planes] channels. *)
Lemma upBlock_shape (in_planes out_planes b h w : nat) :
  0 < out_planes -> 0 < h -> 0 < w ->
  Layers.seq_shape (Layers.upBlock in_planes out_planes) [b; in_planes; h; w]
  = Ok [b; out_planes; h * 2; w * 2].
Proof.
  intros Ho Hh Hw. unfold Layers.upBlock. cbn [Layers.seq_shape].
  rewrite Upsample_shape by lia. cbn [bind].
  rewrite conv3x3_shape by lia. cbn [bind].
  rewrite BatchNorm2d_shape by lia. cbn [bind].
  rewrite GLU_layer_shape. reflexivity.
Qed.

(** A residual block keeps the shape it is built for. *)
Lemma ResBlock_shape_same (channel_num b h w : nat) :
  0 < channel_num -> 0 < h -> 0 < w -> b * (h * w) <> 1 ->
  Layers.ResBlock_shape (Layers.ResBlock_init channel_num) [b; channel_num; h; w]
  = Ok [b; channel_num; h; w].
Proof.
  intros Hc Hh Hw Hv. unfold Layers.ResBlock_shape, Layers.ResBlock_init.
  cbn [Layers.block Layers.seq_shape].
  rewrite conv3x3_shape by lia. cbn [bind].
  rewrite BatchNorm2d_shape by assumption. cbn [bind].
  rewrite GLU_layer_shape. cbn [bind].
  rewrite conv3x3_shape by lia. cbn [bind].
  rewrite BatchNorm2d_shape by assumption. cbn [bind].
  now rewrite list_nat_eqb_refl.
Qed.

Lemma residual_shape_app (l1 l2 : list Layers.ResBlock) (s : list nat) :
  GenNextStage.residual_shape (l1 ++ l2) s
  = (s' <- GenNextStage.residual_shape l1 s ;; GenNextStage.residual_shape l2 s').
Proof.
  revert s. induction l1 as [|blk l1 IH]; intros s; simpl; auto.
  destruct (Layers.ResBlock_shape blk s); simpl; auto.
Qed.

Lemma make_layer_shape (n channel_num b h w : nat) :
  0 < channel_num -> 0 < h -> 0 < w -> b * (h * w) <> 1 ->
  GenNextStage.residual_shape (GenNextStage._make_layer n channel_num)
                              [b; channel_num; h; w]
  = Ok [b; channel_num; h; w].
Proof.
  intros Hc Hh Hw Hv. induction n as [|n IH]; simpl; auto.
  rewrite residual_shape_app, IH. cbn [bind GenNextStage.residual_shape].
  now rewrite ResBlock_shape_same.
Qed.

(** ** GenInitialStage *)

Lemma cat1_shape_rank2 (b c c' : nat) :
  Layers.cat1_shape [b; c] [b; c'] = Ok [b; c + c'].
Proof.
  unfold Layers.cat1_shape. now rewrite Nat.eqb_refl, list_nat_eqb_refl.
Qed.

Lemma cat1_shape_rank4 (b c c' h w : nat) :
  Layers.cat1_shape [b; c; h; w] [b; c'; h; w] = Ok [b; c + c'; h; w].
Proof.
  unfold Layers.cat1_shape. now rewrite Nat.eqb_refl, list_nat_eqb_refl.
Qed.

(** [X.view(-1, gf_dim, 4, 4)] on the output of [fc]. *)
Lemma view_infer_4x4 (batch g : nat) :
  0 < g ->
  view_infer_shape [batch; g * 4 * 4] [] [g; 4; 4] = Ok [batch; g; 4; 4].
Proof.
  intros Hg. unfold view_infer_shape.
  assert (Hk : numel [] * numel [g; 4; 4] = g * 16) by (simpl; lia).
  assert (Ht : numel [batch; g * 4 * 4] = batch * (g * 16)) by (simpl; lia).
  rewrite Hk, Ht.
  replace (g * 16 =? 0) with false by (symmetry; apply Nat.eqb_neq; lia).
  rewrite Nat.Div0.mod_mul. cbn [Nat.eqb].
  rewrite Nat.div_mul by lia. reflexivity.
Qed.

(** The fully connected block: its batch normalization, in training
    mode, refuses a batch of one sample. *)
Lemma fc_shape (gf_dim z_dim emb_dim batch : nat) :
  Layers.seq_shape
    (GenInitialStage.fc (GenInitialStage.define_module gf_dim z_dim emb_dim))
    [batch; z_dim + emb_dim]
  = if batch =? 1 then Err ValueError else Ok [batch; gf_dim * 4 * 4].
Proof.
  cbn [GenInitialStage.define_module GenInitialStage.fc Layers.seq_shape].
  cbn [Layers.layer_shape rev app]. rewrite Nat.eqb_refl. cbn [bind rev app].
  unfold Layers.one_value_per_channel, numel. cbn [fold_right].
  rewrite Nat.mul_1_r. destruct (batch =? 1); [reflexivity|].
  rewrite Nat.eqb_refl. cbn [bind]. now rewrite GLU_shape_double.
Qed.

Lemma sixteenth_pos (g : nat) :
  16 <= g -> 0 < g / 2 /\ 0 < g / 4 /\ 0 < g / 8 /\ 0 < g / 16.
Proof.
  intros Hg. repeat split; apply Nat.div_str_pos; lia.
Qed.

(** The initial stage on a base width of at least 16: the channel
    schedule is [gf_dim / 2, / 4, / 8, / 16] with the division of [//]. *)
Lemma initial_stage_shape (gf_dim z_dim emb_dim batch : nat) :
  16 <= gf_dim ->
  GenInitialStage.forward (GenInitialStage.define_module gf_dim z_dim emb_dim)
                          [batch; z_dim] [batch; emb_dim]
  = if batch =? 1 then Err ValueError else Ok [batch; gf_dim / 16; 64; 64].
Proof.
  intros Hg. destruct (sixteenth_pos Hg) as (H2 & H4 & H8 & H16).
  unfold GenInitialStage.forward.
  rewrite cat1_shape_rank2. cbn [bind]. rewrite fc_shape.
  destruct (batch =? 1); [reflexivity|]. cbn [bind].
  cbn [GenInitialStage.define_module GenInitialStage.gf_dim
       GenInitialStage.upsample1 GenInitialStage.upsample2
       GenInitialStage.upsample3 GenInitialStage.upsample4].
  rewrite view_infer_4x4 by lia. cbn [bind].
  rewrite upBlock_shape by lia. cbn [bind].
  rewrite upBlock_shape by lia. cbn [bind].
  rewrite upBlock_shape by lia. cbn [bind].
  rewrite upBlock_shape by lia. cbn [bind].
  reflexivity.
Qed.

Lemma halving_exact (g : nat) :
  g mod 16 = 0 ->
  2 * (g / 2) = g /\ 2 * (g / 4) = g / 2 /\
  2 * (g / 8) = g / 4 /\ 2 * (g / 16) = g / 8.
Proof.
  intros Hdiv. apply Nat.Div0.div_exact in Hdiv.
  remember (g / 16) as k eqn:Hk. clear Hk. subst g.
  assert (H2 : 16 * k / 2 = 8 * k)
    by (replace (16 * k) with (8 * k * 2) by lia; apply Nat.div_mul; lia).
  assert (H4 : 16 * k / 4 = 4 * k)
    by (replace (16 * k) with (4 * k * 4) by lia; apply Nat.div_mul; lia).
  assert (H8 : 16 * k / 8 = 2 * k)
    by (replace (16 * k) with (2 * k * 8) by lia; apply Nat.div_mul; lia).
  rewrite H2, H4, H8. lia.
Qed.

(** C7 as stated fails on a batch of one sample: the batch
    normalization of [fc], in the training mode the module is
    constructed in, has one value per channel and raises. *)
Lemma GenInitialStage_forward_counterexample :
  32 mod 16 = 0 /\
  exists self : GenInitialStage.t,
    GenInitialStage.init 32 100 256 = Ok self /\
    GenInitialStage.forward self [1; 100] [1; 256] = Err ValueError.
Proof.
  split; [reflexivity|]. eexists. split; [reflexivity|].
  apply (@initial_stage_shape 32 100 256 1). lia.
Qed.

(** C7, as amended: with a positive base width divisible by 16 and a
    batch of at least two samples, the initial stage maps noise
    (batch, z_dim) and sentence (batch, emb_dim) to
    (batch, gf_dim/16, 64, 64); from (batch, gf_dim, 4, 4) on, each of
    the four upsample blocks doubles height and width and halves the
    channel count exactly. *)
Theorem GenInitialStage_forward_shape (gf_dim z_dim emb_dim batch : nat) :
  0 < gf_dim ->
  gf_dim mod 16 = 0 ->
  2 <= batch ->
  exists self : GenInitialStage.t,
    GenInitialStage.init gf_dim z_dim emb_dim = Ok self /\
    GenInitialStage.forward self [batch; z_dim] [batch; emb_dim]
    = Ok [batch; gf_dim / 16; 64; 64] /\
    Layers.seq_shape (GenInitialStage.upsample1 self) [batch; gf_dim; 4; 4]
    = Ok [batch; gf_dim / 2; 8; 8] /\
    Layers.seq_shape (GenInitialStage.upsample2 self) [batch; gf_dim / 2; 8; 8]
    = Ok [batch; gf_dim / 4; 16; 16] /\
    Layers.seq_shape (GenInitialStage.upsample3 self) [batch; gf_dim / 4; 16; 16]
    = Ok [batch; gf_dim / 8; 32; 32] /\
    Layers.seq_shape (GenInitialStage.upsample4 self) [batch; gf_dim / 8; 32; 32]
    = Ok [batch; gf_dim / 16; 64; 64] /\
    2 * (gf_dim / 2) = gf_dim /\
    2 * (gf_dim / 4) = gf_dim / 2 /\
    2 * (gf_dim / 8) = gf_dim / 4 /\
    2 * (gf_dim / 16) = gf_dim / 8.
Proof.
  intros Hg Hdiv Hb. eexists. split; [reflexivity|].
  destruct (halving_exact gf_dim Hdiv) as (H2 & H4 & H8 & H16).
  assert (Hg16 : 16 <= gf_dim) by lia.
  destruct (sixteenth_pos Hg16) as (P2 & P4 & P8 & P16).
  split.
  { rewrite initial_stage_shape by assumption.
    now replace (batch =? 1) with false by (symmetry; apply Nat.eqb_neq; lia). }
  cbn [GenInitialStage.define_module GenInitialStage.upsample1
       GenInitialStage.upsample2 GenInitialStage.upsample3
       GenInitialStage.upsample4].
  repeat split; try (rewrite upBlock_shape by lia; reflexivity); assumption.
Qed.

Lemma GenInitialStage_forward_shape_witness :
  exists self : GenInitialStage.t,
    GenInitialStage.init 32 100 256 = Ok self /\
    GenInitialStage.forward self [2; 100] [2; 256] = Ok [2; 32 / 16; 64; 64] /\
    Layers.seq_shape (GenInitialStage.upsample1 self) [2; 32; 4; 4]
    = Ok [2; 32 / 2; 8; 8] /\
    Layers.seq_shape (GenInitialStage.upsample2 self) [2; 32 / 2; 8; 8]
    = Ok [2; 32 / 4; 16; 16] /\
    Layers.seq_shape (GenInitialStage.upsample3 self) [2; 32 / 4; 16; 16]
    = Ok [2; 32 / 8; 32; 32] /\
    Layers.seq_shape (GenInitialStage.upsample4 self) [2; 32 / 8; 32; 32]
    = Ok [2; 32 / 16; 64; 64] /\
    2 * (32 / 2) = 32 /\
    2 * (32 / 4) = 32 / 2 /\
    2 * (32 / 8) = 32 / 4 /\
    2 * (32 / 16) = 32 / 8.
Proof.
  apply (@GenInitialStage_forward_shape 32 100 256 2); [lia | reflexivity | lia].
Defined.

(** C8 as stated fails: a base width of 24 is not divisible by 16 and
    the construction returns a module. *)
Lemma GenInitialStage_init_counterexample :
  24 mod 16 <> 0 /\
  (forall e : error, GenInitialStage.init 24 100 256 <> Err e) /\
  exists self : GenInitialStage.t,
    GenInitialStage.init 24 100 256 = Ok self /\
    GenInitialStage.upsample4 self = Layers.upBlock 3 1.
Proof.
  split; [discriminate|]. split; [discriminate|].
  eexists. split; reflexivity.
Qed.

(** C8, as amended: for every positive base width, divisible by 16 or
    not, construction succeeds and raises nothing; the channel schedule
    it builds is the floor division of the width by 2, 4, 8 and 16. *)
Theorem GenInitialStage_init_floor (gf_dim z_dim emb_dim : nat) :
  0 < gf_dim ->
  (forall e : error, GenInitialStage.init gf_dim z_dim emb_dim <> Err e) /\
  exists self : GenInitialStage.t,
    GenInitialStage.init gf_dim z_dim emb_dim = Ok self /\
    GenInitialStage.upsample1 self = Layers.upBlock gf_dim (gf_dim / 2) /\
    GenInitialStage.upsample2 self = Layers.upBlock (gf_dim / 2) (gf_dim / 4) /\
    GenInitialStage.upsample3 self = Layers.upBlock (gf_dim / 4) (gf_dim / 8) /\
    GenInitialStage.upsample4 self = Layers.upBlock (gf_dim / 8) (gf_dim / 16).
Proof.
  intros Hg. split; [discriminate|].
  eexists. split; [reflexivity|]. repeat split.
Qed.

Lemma GenInitialStage_init_floor_witness :
  (forall e : error, GenInitialStage.init 24 100 256 <> Err e) /\
  exists self : GenInitialStage.t,
    GenInitialStage.init 24 100 256 = Ok self /\
    GenInitialStage.upsample1 self = Layers.upBlock 24 (24 / 2) /\
    GenInitialStage.upsample2 self = Layers.upBlock (24 / 2) (24 / 4) /\
    GenInitialStage.upsample3 self = Layers.upBlock (24 / 4) (24 / 8) /\
    GenInitialStage.upsample4 self = Layers.upBlock (24 / 8) (24 / 16).
Proof.
  apply (@GenInitialStage_init_floor 24 100 256). lia.
Defined.

(** ** GenNextStage *)

Lemma init_configured (gf_dim emb_dim n : nat) (w : list R) :
  configured (GenNextStage.init gf_dim emb_dim n w).
Proof. repeat split. Qed.

(** C6 as stated fails on one sample of one pixel: the batch
    normalization of the first residual block, in training mode, has
    one value per channel and raises. *)
Lemma GenNextStage_forward_counterexample :
  configured ex_stage /\
  shape ex_pixel = [1; GenNextStage.gf_dim ex_stage; 1; 1] /\
  shape ex_words = [1; GenNextStage.emb_dim ex_stage; 2] /\
  shape ex_mask = [1; 2] /\
  GenNextStage.forward ex_stage ex_pixel ex_words ex_mask = Err ValueError.
Proof.
  split; [apply init_configured|]. repeat split.
Qed.

(** C6, as amended: a next stage built for C channels maps images
    (batch, C, h, w) holding more than one pixel in all, word embeddings
    (batch, emb_dim, seq_len) and a mask (batch, seq_len) to images of
    shape (batch, C, 2h, 2w) and an attention map of shape
    (batch, seq_len, h, w); the concatenation inside has 2C channels.
    All sizes are positive. *)
Theorem GenNextStage_forward_shape (self : GenNextStage.t)
        (images word_embs : Tensor R) (mask : Tensor Z)
        (batch h w seq_len : nat) :
  configured self ->
  shape images = [batch; GenNextStage.gf_dim self; h; w] ->
  shape word_embs = [batch; GenNextStage.emb_dim self; seq_len] ->
  shape mask = [batch; seq_len] ->
  0 < GenNextStage.gf_dim self -> 0 < GenNextStage.emb_dim self ->
  0 < seq_len -> 0 < h -> 0 < w ->
  1 < batch * (h * w) ->
  exists (self' : GenNextStage.t) (X : list nat) (attn : Tensor fl)
         (context : Tensor ext),
    GenNextStage.forward self images word_embs mask = Ok (self', (X, attn)) /\
    X = [batch; GenNextStage.gf_dim self; 2 * h; 2 * w] /\
    shape attn = [batch; seq_len; h; w] /\
    configured self' /\
    AttentionModule.mask (GenNextStage.attention self') = Some mask /\
    AttentionModule.forward (GenNextStage.attention self') images word_embs true
    = Ok (context, attn) /\
    Layers.cat1_shape (shape images) (shape context)
    = Ok [batch; 2 * GenNextStage.gf_dim self; h; w].
Proof.
  intros Hcfg Hi Hw Hm HC HE HL Hh Hww Hv.
  pose proof Hcfg as (Hres & Hup & Hin & Hout).
  unfold GenNextStage.forward.
  cbn [GenNextStage.attention GenNextStage.residual GenNextStage.upsample].
  set (att := AttentionModule.apply_mask (GenNextStage.attention self) mask).
  pose proof (@forward_ok att images word_embs true batch
                (GenNextStage.gf_dim self) h w (GenNextStage.emb_dim self)
                seq_len mask Hi Hw eq_refl Hm Hin Hout HC HL) as Hfw.
  rewrite Hfw. cbn [bind shape]. rewrite Hi, cat1_shape_rank4. cbn [bind].
  replace (GenNextStage.gf_dim self + GenNextStage.gf_dim self)
    with (GenNextStage.gf_dim self * 2) by lia.
  rewrite Hres, make_layer_shape by lia. cbn [bind].
  rewrite Hup, upBlock_shape by lia. cbn [bind].
  eexists _, _, _, _. split; [reflexivity|].
  split; [f_equal; f_equal; f_equal; [lia | f_equal; lia]|].
  split; [reflexivity|]. split; [repeat split; assumption|].
  split; [reflexivity|]. split; [exact Hfw|].
  cbn [shape]. rewrite cat1_shape_rank4. do 3 f_equal. lia.
Qed.

Lemma GenNextStage_forward_shape_witness :
  exists (self' : GenNextStage.t) (X : list nat) (attn : Tensor fl)
         (context : Tensor ext),
    GenNextStage.forward ex_stage ex_images ex_words ex_mask
    = Ok (self', (X, attn)) /\
    X = [1; 1; 2 * 1; 2 * 2] /\
    shape attn = [1; 2; 1; 2] /\
    configured self' /\
    AttentionModule.mask (GenNextStage.attention self') = Some ex_mask /\
    AttentionModule.forward (GenNextStage.attention self') ex_images ex_words true
    = Ok (context, attn) /\
    Layers.cat1_shape (shape ex_images) (shape context) = Ok [1; 2 * 1; 1; 2].
Proof.
  apply (@GenNextStage_forward_shape ex_stage ex_images ex_words ex_mask 1 1 2 2);
    first [ apply init_configured | reflexivity | simpl; lia ].
Defined.

(** ** func_attention *)

Lemma view_infer_context (B ndf ih iw : nat) :
  0 < B -> 0 < ih -> 0 < iw ->
  view_infer_shape [B; ndf; ih; iw] [B] [ih * iw] = Ok [B; ndf; ih * iw].
Proof.
  intros HB Hih Hiw. unfold view_infer_shape.
  assert (Hk : numel [B] * numel [ih * iw] = B * (ih * iw)) by (simpl; lia).
  assert (Ht : numel [B; ndf; ih; iw] = ndf * (B * (ih * iw))) by (simpl; lia).
  rewrite Hk, Ht.
  replace (B * (ih * iw) =? 0) with false by (symmetry; apply Nat.eqb_neq; nia).
  rewrite Nat.Div0.mod_mul. cbn [Nat.eqb].
  rewrite Nat.div_mul by nia. reflexivity.
Qed.

Lemma stage_scores_ok (query ctx : Tensor R) (scaled : bool) (B ndf Q S : nat) :
  shape query = [B; ndf; Q] ->
  shape ctx = [B; ndf; S] ->
  (scaled = true -> 0 < ndf) ->
  exists sc : Tensor ext,
    func_attention_scores B ndf Q S query ctx scaled = Ok sc /\
    shape sc = [B * S; Q] /\
    (wf query -> length (data sc) = B * S * Q).
Proof.
  intros Hq Hc Hndf. unfold func_attention_scores.
  unfold transpose12 at 1. rewrite Hc. cbn [bind].
  unfold bmm, bmm_with. cbn [to_ext shape data]. rewrite Hq, !Nat.eqb_refl.
  cbn [andb bind].
  rewrite (@scale_step scaled _ _ Hndf). cbn [bind].
  rewrite view_ok by (rewrite scaled_by_shape; simpl; lia).
  eexists. split; [reflexivity|]. split; [reflexivity|].
  intros Hwf. cbn [data]. rewrite scaled_by_length. cbn [data].
  rewrite bmm_data_length; [lia|].
  rewrite length_map. unfold wf in Hwf. rewrite Hwf, Hq. simpl. lia.
Qed.

Lemma stage1_of_scores (query ctx : Tensor R) (scaled : bool) (B ndf Q S n : nat)
      (sc : Tensor ext) :
  func_attention_scores B ndf Q S query ctx scaled = Ok sc ->
  shape sc = [n; Q] ->
  func_attention_stage1 B ndf Q S query ctx scaled
  = Ok (mkTensor [n; Q] (concat (map softmax_row (chunks Q n (data sc))))).
Proof.
  intros Hsc Hs. unfold func_attention_stage1. rewrite Hsc. cbn [bind].
  unfold Softmax_implicit, softmax_dim1. now rewrite Hs.
Qed.

(** The first stage is the softmax of the scores. *)
Lemma first_via_scores (query context : Tensor R) (scaled : bool) :
  func_attention_first query context scaled
  = (sc <- func_attention_first_scores query context scaled ;; Softmax_implicit sc).
Proof.
  unfold func_attention_first, func_attention_first_scores, func_attention_stage1.
  destruct (unpack3 (shape query)) as [[[B ndf] Q]|e]; [|reflexivity]. cbn [bind].
  destruct (size context 2); [|reflexivity]. cbn [bind].
  destruct (size context 3); [|reflexivity]. cbn [bind].
  destruct (view_infer context _ _); reflexivity.
Qed.

Lemma func_attention_first_ok (query context : Tensor R) (scaled : bool)
      (B ndf Q ih iw : nat) :
  shape query = [B; ndf; Q] ->
  shape context = [B; ndf; ih; iw] ->
  wf query ->
  0 < B -> 0 < ih -> 0 < iw ->
  (scaled = true -> 0 < ndf) ->
  exists sc : Tensor ext,
    func_attention_first_scores query context scaled = Ok sc /\
    shape sc = [B * (ih * iw); Q] /\
    length (data sc) = B * (ih * iw) * Q /\
    func_attention_first query context scaled
    = Ok (mkTensor [B * (ih * iw); Q]
            (concat (map softmax_row (chunks Q (B * (ih * iw)) (data sc))))).
Proof.
  intros Hq Hc Hwf HB Hih Hiw Hndf.
  rewrite first_via_scores.
  unfold func_attention_first_scores, size. rewrite Hq, Hc.
  cbn [unpack3 bind nth_error].
  unfold view_infer. rewrite Hc, view_infer_context by assumption. cbn [bind].
  destruct (@stage_scores_ok query (mkTensor [B; ndf; ih * iw] (data context))
              scaled B ndf Q (ih * iw) Hq eq_refl Hndf) as (sc & Hsc & Hs & Hlen).
  rewrite Hsc. cbn [bind]. exists sc. split; [reflexivity|].
  split; [exact Hs|]. split; [now apply Hlen|].
  unfold Softmax_implicit, softmax_dim1. now rewrite Hs.
Qed.

(** A row of finite scores has neither [nan] nor [inf]. *)
Lemma finite_row_regular (row : list ext) :
  (forall q, q < length row -> finite (nth_error row q)) ->
  existsb is_nan row = false /\ existsb is_posinf row = false /\
  (row <> [] -> existsb is_finite row = true).
Proof.
  intros Hfin.
  assert (Hall : forall v, In v row -> exists r, v = Fin r).
  { intros v Hv. apply In_nth_error in Hv. destruct Hv as (q & Hq).
    destruct (Hfin q) as (r & Hr).
    - apply nth_error_Some. congruence.
    - rewrite Hq in Hr. injection Hr as ->. eauto. }
  repeat split.
  - apply existsb_none. intros v Hv. now destruct (Hall v Hv) as (r & ->).
  - apply existsb_none. intros v Hv. now destruct (Hall v Hv) as (r & ->).
  - destruct row as [|v row]; [congruence|]. intros _.
    destruct (Hall v) as (r & ->); simpl; auto.
Qed.

(** C5, as amended: the first softmax of [func_attention] normalizes
    over the query axis: for every sample and every spatial location
    whose scores are finite floats (none has overflowed), the
    first-stage weights over the query positions are real numbers that
    sum to 1. *)
Theorem first_stage_sums_over_queries (query context : Tensor R) (scaled : bool)
        (B ndf Q ih iw : nat) (b s : nat) (sc : Tensor ext) :
  shape query = [B; ndf; Q] ->
  shape context = [B; ndf; ih; iw] ->
  wf query ->
  0 < Q -> 0 < ih -> 0 < iw ->
  (scaled = true -> 0 < ndf) ->
  b < B -> s < ih * iw ->
  func_attention_first_scores query context scaled = Ok sc ->
  (forall q, q < Q -> finite (get2 sc (b * (ih * iw) + s) q)) ->
  exists (attn : Tensor fl) (ws : list R),
    func_attention_first query context scaled = Ok attn /\
    shape attn = [B * (ih * iw); Q] /\
    length ws = Q /\
    (forall q, q < Q ->
       nth_error (data attn) ((b * (ih * iw) + s) * Q + q)
       = Some (Val (nth q ws 0%R))) /\
    sumR ws = 1%R.
Proof.
  intros Hq Hc Hwf HQ Hih Hiw Hndf Hb Hs Hsc Hfin.
  destruct (@func_attention_first_ok query context scaled B ndf Q ih iw
              Hq Hc Hwf ltac:(lia) Hih Hiw Hndf) as (sc' & Hsc' & Hss & Hlen & Hfa).
  rewrite Hsc in Hsc'. injection Hsc' as <-.
  set (n := B * (ih * iw)) in *.
  set (r := b * (ih * iw) + s) in *.
  assert (Hr : r < n) by now apply index_lt.
  set (rows := chunks Q n (data sc)).
  assert (Hrows : uniform Q rows).
  { apply chunks_uniform. lia. }
  set (row := row_at Q r (data sc)).
  assert (Hrowlen : length row = Q).
  { apply row_at_length. rewrite Hlen. nia. }
  assert (Hnth : nth_error (map softmax_row rows) r = Some (softmax_row row)).
  { unfold rows. now rewrite nth_error_map, (@nth_error_chunks _ Q n _ r Hr). }
  destruct (@finite_row_regular row) as (Hnan & Hpos & Hfinite).
  { intros q Hq'. unfold row. rewrite (@row_entry _ n Q sc r q Hss) by lia.
    apply Hfin. lia. }
  assert (Hne : row <> []) by (intros E; rewrite E in Hrowlen; simpl in *; lia).
  destruct (softmax_row_sum row Hnan Hpos (Hfinite Hne))
    as (ws & Hsm & Hwslen & Hsum).
  eexists _, ws. split; [exact Hfa|]. split; [reflexivity|].
  split; [lia|]. split; [|exact Hsum].
  intros q Hq'. cbn [data]. fold rows.
  rewrite (@nth_error_concat_uniform _ Q (map softmax_row rows) r
             (softmax_row row) q); auto.
  - rewrite Hsm. apply nth_error_map_Val. lia.
  - apply Forall_map. eapply Forall_impl; [|exact Hrows].
    intros x Hx. now rewrite softmax_row_length.
Qed.

(** The scores of the example call of [func_attention]. *)
Lemma ex_first_scores :
  exists a b : R,
    func_attention_first_scores ex_query ex_context true
    = Ok (mkTensor [1 * (1 * 2); 1] [Fin a; Fin b]).
Proof.
  unfold func_attention_first_scores, func_attention_scores, size, view_infer,
    view_infer_shape, scale_by_sqrt, scale, transpose12, bmm, bmm_with, view, to_ext.
  cbn -[rnd ext_mul ext_add INR sqrt Rdiv]. float_eval.
  eexists _, _. reflexivity.
Qed.

Lemma first_stage_sums_over_queries_witness :
  exists (attn : Tensor fl) (ws : list R),
    func_attention_first ex_query ex_context true = Ok attn /\
    shape attn = [1 * (1 * 2); 1] /\
    length ws = 1 /\
    (forall q, q < 1 ->
       nth_error (data attn) ((0 * (1 * 2) + 1) * 1 + q)
       = Some (Val (nth q ws 0%R))) /\
    sumR ws = 1%R.
Proof.
  destruct ex_first_scores as (a & b & Hsc).
  apply (@first_stage_sums_over_queries ex_query ex_context true 1 1 1 1 2 0 1
           (mkTensor [1 * (1 * 2); 1] [Fin a; Fin b]));
    first [ exact Hsc | reflexivity | lia | intros; lia | idtac ].
  intros q Hq. destruct q as [|q]; [|lia]. eexists. reflexivity.
Defined.

Lemma softmax_singleton (a : R) : (exp a / (exp a + 0) = 1)%R.
Proof.
  pose proof (exp_pos a) as Ha. field. lra.
Qed.

(** C5 as stated fails: with one query position and two spatial
    locations both first-stage weights are 1, so that the weights of
    the query sum to 2 along the source axis. *)
Lemma first_stage_counterexample :
  exists v0 v1 : R,
    func_attention_first ex_query ex_context true
    = Ok (mkTensor [2; 1] [Val v0; Val v1]) /\
    sumR [v0; v1] = 2%R /\
    sumR [v0; v1] <> 1%R.
Proof.
  destruct ex_first_scores as (a & b & Hsc).
  rewrite first_via_scores, Hsc. cbn [bind].
  eexists _, _. split; [reflexivity|].
  match goal with
  | |- ?x = _ /\ _ =>
      assert (Hx : x = 2%R) by (simpl; rewrite !softmax_singleton; lra)
  end.
  split; [exact Hx | rewrite Hx; lra].
Qed.

(** The whole of [func_attention] on the same input: a weighted context
    of shape (1, 1, 1) and an attention map of shape (1, 1, 1, 2). *)
Example func_attention_runs :
  exists wc attn : Tensor fl,
    func_attention ex_query ex_context 4 true = Ok (wc, attn) /\
    shape wc = [1; 1; 1] /\
    shape attn = [1; 1; 1; 2].
Proof. eexists _, _. repeat split. Qed.

(** * Further properties of the layer blocks *)

Lemma conv_out_down (n : nat) : 2 <= n -> Layers.conv_out n 4 2 1 = Ok (n / 2).
Proof.
  intros Hn. unfold Layers.conv_out.
  replace (4 <=? n + 2 * 1) with true by (symmetry; apply Nat.leb_le; lia).
  change (1 <=? 2) with true. cbn [andb]. f_equal.
  replace (n + 2 * 1 - 4) with (n - 2) by lia.
  replace n with ((n - 2) + 1 * 2) at 2 by lia.
  rewrite Nat.div_add by lia. reflexivity.
Qed.

Lemma conv_out_down_small (n : nat) :
  n < 2 -> Layers.conv_out n 4 2 1 = Err RuntimeError.
Proof.
  intros Hn. unfold Layers.conv_out.
  replace (4 <=? n + 2 * 1) with false by (symmetry; apply Nat.leb_gt; lia).
  reflexivity.
Qed.

Lemma Conv2d_down_shape (cin cout b h w : nat) :
  0 < cout -> 2 <= h -> 2 <= w ->
  Layers.layer_shape (Layers.Conv2d cin cout 4 2 1) [b; cin; h; w]
  = Ok [b; cout; h / 2; w / 2].
Proof.
  intros Hc Hh Hw. apply Conv2d_shape; auto using conv_out_down.
Qed.

Lemma LeakyReLU_shape (s : list nat) :
  Layers.layer_shape Layers.LeakyReLU s = Ok s.
Proof. reflexivity. Qed.

Lemma conv_wrong_channels (cin cout k st p b c h w : nat) :
  c <> cin ->
  Layers.layer_shape (Layers.Conv2d cin cout k st p) [b; c; h; w]
  = Err RuntimeError.
Proof.
  intros Hc. cbn [Layers.layer_shape].
  apply Nat.eqb_neq in Hc. now rewrite Hc.
Qed.

(** A batch normalization in training mode on the channel count it is
    built for. *)
Lemma BatchNorm2d_training (n b h w : nat) :
  Layers.layer_shape (Layers.BatchNorm2d n) [b; n; h; w]
  = if b * (h * w) =? 1 then Err ValueError else Ok [b; n; h; w].
Proof.
  cbn [Layers.layer_shape]. rewrite one_value_rank4.
  destruct (b * (h * w) =? 1); [reflexivity|]. now rewrite Nat.eqb_refl.
Qed.

(** X1: [upBlock] doubles height and width and returns [out_planes]
    channels on an input of [in_planes] channels; on any other channel
    count its convolution raises.  All sizes are positive. *)
Theorem upBlock_contract (in_planes out_planes b c h w : nat) :
  0 < in_planes -> 0 < out_planes -> 0 < b -> 0 < h -> 0 < w ->
  Layers.seq_shape (Layers.upBlock in_planes out_planes) [b; c; h; w]
  = if c =? in_planes then Ok [b; out_planes; 2 * h; 2 * w]
    else Err RuntimeError.
Proof.
  intros Hin Ho Hb Hh Hw. destruct (c =? in_planes) eqn:Hc.
  - apply Nat.eqb_eq in Hc. subst c.
    rewrite upBlock_shape by assumption.
    now rewrite (Nat.mul_comm h), (Nat.mul_comm w).
  - apply Nat.eqb_neq in Hc. unfold Layers.upBlock. cbn [Layers.seq_shape].
    rewrite Upsample_shape by lia. cbn [bind].
    unfold Layers.conv3x3. now rewrite conv_wrong_channels.
Qed.

Lemma upBlock_contract_witness :
  Layers.seq_shape (Layers.upBlock 32 16) [2; 32; 4; 4]
  = if 32 =? 32 then Ok [2; 16; 2 * 4; 2 * 4] else Err RuntimeError.
Proof. apply (@upBlock_contract 32 16 2 32 4 4); lia. Defined.

(** X2: a residual block built for [channel_num] channels returns the
    shape it is given when that has [channel_num] channels and more
    than one value per channel; with one value per channel its batch
    normalization, in training mode, raises; on any other channel count
    its convolution raises.  All sizes are positive. *)
Theorem ResBlock_contract (channel_num b c h w : nat) :
  0 < channel_num -> 0 < b -> 0 < h -> 0 < w ->
  Layers.ResBlock_shape (Layers.ResBlock_init channel_num) [b; c; h; w]
  = if c =? channel_num
    then (if b * (h * w) =? 1 then Err ValueError else Ok [b; c; h; w])
    else Err RuntimeError.
Proof.
  intros Hcn Hb Hh Hw. destruct (c =? channel_num) eqn:Hc.
  - apply Nat.eqb_eq in Hc. subst c.
    destruct (Nat.eqb_spec (b * (h * w)) 1) as [Hv|Hv].
    + unfold Layers.ResBlock_shape, Layers.ResBlock_init.
      cbn [Layers.block Layers.seq_shape].
      rewrite conv3x3_shape by lia. cbn [bind].
      rewrite BatchNorm2d_training, Hv. reflexivity.
    + now apply ResBlock_shape_same.
  - apply Nat.eqb_neq in Hc.
    unfold Layers.ResBlock_shape, Layers.ResBlock_init.
    cbn [Layers.block Layers.seq_shape].
    unfold Layers.conv3x3 at 1. now rewrite conv_wrong_channels.
Qed.

Lemma ResBlock_contract_witness :
  Layers.ResBlock_shape (Layers.ResBlock_init 64) [2; 64; 8; 8]
  = if 64 =? 64
    then (if 2 * (8 * 8) =? 1 then Err ValueError else Ok [2; 64; 8; 8])
    else Err RuntimeError.
Proof. apply (@ResBlock_contract 64 2 64 8 8); lia. Defined.

(** X3: [Block3x3_relu] and [Block3x3_leakRelu] keep height and width
    and return [out_planes] channels on an input of [in_planes]
    channels and more than one value per channel; with one value per
    channel the batch normalization, in training mode, raises; on any
    other channel count the convolution raises.  All sizes are
    positive. *)
Theorem Block3x3_contract (in_planes out_planes b c h w : nat) :
  0 < in_planes -> 0 < out_planes -> 0 < b -> 0 < h -> 0 < w ->
  Layers.seq_shape (Layers.Block3x3_relu in_planes out_planes) [b; c; h; w]
  = (if c =? in_planes
     then (if b * (h * w) =? 1 then Err ValueError else Ok [b; out_planes; h; w])
     else Err RuntimeError) /\
  Layers.seq_shape (Layers.Block3x3_leakRelu in_planes out_planes) [b; c; h; w]
  = (if c =? in_planes
     then (if b * (h * w) =? 1 then Err ValueError else Ok [b; out_planes; h; w])
     else Err RuntimeError).
Proof.
  intros Hin Ho Hb Hh Hw. unfold Layers.Block3x3_relu, Layers.Block3x3_leakRelu.
  cbn [Layers.seq_shape].
  destruct (c =? in_planes) eqn:Hc.
  - apply Nat.eqb_eq in Hc. subst c.
    rewrite !conv3x3_shape by lia. cbn [bind].
    rewrite !BatchNorm2d_training.
    destruct (b * (h * w) =? 1); [split; reflexivity|]. cbn [bind].
    rewrite GLU_layer_shape. split; reflexivity.
  - apply Nat.eqb_neq in Hc. unfold Layers.conv3x3.
    rewrite !conv_wrong_channels by assumption. split; reflexivity.
Qed.

Lemma Block3x3_contract_witness :
  Layers.seq_shape (Layers.Block3x3_relu 8 4) [1; 8; 5; 7]
  = (if 8 =? 8
     then (if 1 * (5 * 7) =? 1 then Err ValueError else Ok [1; 4; 5; 7])
     else Err RuntimeError) /\
  Layers.seq_shape (Layers.Block3x3_leakRelu 8 4) [1; 8; 5; 7]
  = (if 8 =? 8
     then (if 1 * (5 * 7) =? 1 then Err ValueError else Ok [1; 4; 5; 7])
     else Err RuntimeError).
Proof. apply (@Block3x3_contract 8 4 1 8 5 7); lia. Defined.

(** X4: [downBlock] halves height and width, rounding down, on an input
    of [in_planes] channels and at least 2 by 2; a height or width
    below 2 is smaller than the kernel and raises, and an output of one
    value per channel makes the batch normalization, in training mode,
    raise.  The batch and the channel counts are positive. *)
Theorem downBlock_contract (in_planes out_planes b h w : nat) :
  0 < in_planes -> 0 < out_planes -> 0 < b ->
  Layers.seq_shape (Layers.downBlock in_planes out_planes) [b; in_planes; h; w]
  = if (2 <=? h) && (2 <=? w)
    then (if b * (h / 2 * (w / 2)) =? 1 then Err ValueError
          else Ok [b; out_planes; h / 2; w / 2])
    else Err RuntimeError.
Proof.
  intros Hin Ho Hb. unfold Layers.downBlock. cbn [Layers.seq_shape].
  destruct (Nat.leb_spec 2 h) as [Hh|Hh]; cbn [andb].
  - destruct (Nat.leb_spec 2 w) as [Hw|Hw].
    + rewrite Conv2d_down_shape by assumption. cbn [bind].
      rewrite BatchNorm2d_training.
      destruct (b * (h / 2 * (w / 2)) =? 1); reflexivity.
    + cbn [Layers.layer_shape]. rewrite Nat.eqb_refl.
      replace (out_planes =? 0) with false by (symmetry; apply Nat.eqb_neq; lia).
      cbn [andb negb].
      rewrite (conv_out_down Hh), (conv_out_down_small Hw). reflexivity.
  - cbn [Layers.layer_shape]. rewrite Nat.eqb_refl.
    replace (out_planes =? 0) with false by (symmetry; apply Nat.eqb_neq; lia).
    cbn [andb negb].
    rewrite (conv_out_down_small Hh). reflexivity.
Qed.

Lemma downBlock_contract_witness :
  Layers.seq_shape (Layers.downBlock 3 8) [1; 3; 2; 2]
  = if (2 <=? 2) && (2 <=? 2)
    then (if 1 * (2 / 2 * (2 / 2)) =? 1 then Err ValueError
          else Ok [1; 8; 2 / 2; 2 / 2])
    else Err RuntimeError.
Proof. apply (@downBlock_contract 3 8 1 2 2); lia. Defined.

(** X5: [encode_image_by_16times] maps an image of 3 channels and at
    least 16 by 16 to [df_dims * 8] channels of a sixteenth of the
    height and width, rounding down, when that leaves more than one
    value per channel.  The batch and [df_dims] are positive. *)
Theorem encode_image_by_16times_shape (df_dims b h w : nat) :
  0 < df_dims -> 0 < b ->
  16 <= h -> 16 <= w ->
  1 < b * (h / 16 * (w / 16)) ->
  Layers.seq_shape (Layers.encode_image_by_16times df_dims) [b; 3; h; w]
  = Ok [b; df_dims * 8; h / 16; w / 16].
Proof.
  intros Hd Hb Hh Hw Hv. unfold Layers.encode_image_by_16times.
  cbn [Layers.seq_shape].
  assert (H2 : forall n, 16 <= n -> 8 <= n / 2)
    by (intros n Hn; apply Nat.div_le_lower_bound; lia).
  assert (H4 : forall n, 16 <= n -> 4 <= n / 2 / 2).
  { intros n Hn. apply Nat.div_le_lower_bound; [lia|].
    specialize (H2 n Hn). lia. }
  assert (H8 : forall n, 16 <= n -> 2 <= n / 2 / 2 / 2).
  { intros n Hn. apply Nat.div_le_lower_bound; [lia|].
    specialize (H4 n Hn). lia. }
  assert (H16 : forall n, n / 2 / 2 / 2 / 2 = n / 16).
  { intros n. rewrite !Nat.Div0.div_div. reflexivity. }
  pose proof (H2 h Hh). pose proof (H4 h Hh). pose proof (H8 h Hh).
  pose proof (H2 w Hw). pose proof (H4 w Hw). pose proof (H8 w Hw).
  rewrite <- (H16 h), <- (H16 w) in Hv.
  repeat (first [ rewrite Conv2d_down_shape by lia
                | rewrite BatchNorm2d_shape by nia
                | rewrite LeakyReLU_shape ];
          cbn [bind]).
  now rewrite !H16.
Qed.

Lemma encode_image_by_16times_shape_witness :
  Layers.seq_shape (Layers.encode_image_by_16times 64) [2; 3; 64; 64]
  = Ok [2; 64 * 8; 64 / 16; 64 / 16].
Proof.
  apply (@encode_image_by_16times_shape 64 2 64 64); try lia.
  cbn. lia.
Defined.

(** * GenMakeImage *)

(** X6: [GenMakeImage.forward] maps images of [gf_dim] channels to 3
    channels of the same height and width; images of another channel
    count raise.  All sizes are positive. *)
Theorem GenMakeImage_forward_spec (gf_dim b c h w : nat) :
  0 < gf_dim -> 0 < b -> 0 < h -> 0 < w ->
  GenMakeImage.forward (GenMakeImage.init gf_dim) [b; c; h; w]
  = if c =? gf_dim then Ok [b; 3; h; w] else Err RuntimeError.
Proof.
  intros Hg Hb Hh Hw. unfold GenMakeImage.forward, GenMakeImage.init.
  cbn [GenMakeImage.img Layers.seq_shape].
  destruct (c =? gf_dim) eqn:Hc.
  - apply Nat.eqb_eq in Hc. subst c.
    rewrite conv3x3_shape by lia. reflexivity.
  - apply Nat.eqb_neq in Hc. unfold Layers.conv3x3.
    now rewrite conv_wrong_channels.
Qed.

Lemma GenMakeImage_forward_spec_witness :
  GenMakeImage.forward (GenMakeImage.init 32) [2; 32; 64; 64]
  = if 32 =? 32 then Ok [2; 3; 64; 64] else Err RuntimeError.
Proof. apply (@GenMakeImage_forward_spec 32 2 32 64 64); lia. Defined.

(** * func_attention as a whole *)

(** [context.view(batch_size, -1, sourceL)] looks at the element count
    only: the batch and channel counts of [context] enter through
    their product. *)
Lemma view_infer_context_product (B B' n' ih iw : nat) :
  0 < B -> 0 < ih -> 0 < iw ->
  view_infer_shape [B'; n'; ih; iw] [B] [ih * iw]
  = if (B' * n') mod B =? 0 then Ok [B; B' * n' / B; ih * iw]
    else Err RuntimeError.
Proof.
  intros HB Hih Hiw. unfold view_infer_shape.
  assert (Hk : numel [B] * numel [ih * iw] = B * (ih * iw)) by (simpl; lia).
  assert (Ht : numel [B'; n'; ih; iw] = B' * n' * (ih * iw)) by (simpl; lia).
  rewrite Hk, Ht.
  replace (B * (ih * iw) =? 0) with false by (symmetry; apply Nat.eqb_neq; nia).
  assert (HS : ih * iw <> 0) by nia.
  rewrite Nat.Div0.mul_mod_distr_r, Nat.Div0.div_mul_cancel_r by lia.
  destruct ((B' * n') mod B =? 0) eqn:Hm.
  - apply Nat.eqb_eq in Hm. rewrite Hm. reflexivity.
  - apply Nat.eqb_neq in Hm.
    replace ((B' * n') mod B * (ih * iw) =? 0) with false; auto.
    symmetry. apply Nat.eqb_neq. nia.
Qed.

Lemma stage1_wrong_features (query ctx : Tensor R) (scaled : bool)
      (B ndf n Q S : nat) :
  shape query = [B; ndf; Q] ->
  shape ctx = [B; n; S] ->
  n <> ndf ->
  func_attention_stage1 B ndf Q S query ctx scaled = Err RuntimeError.
Proof.
  intros Hq Hc Hn. unfold func_attention_stage1, func_attention_scores.
  unfold transpose12 at 1. rewrite Hc. cbn [bind].
  unfold bmm, bmm_with. cbn [to_ext shape data]. rewrite Hq, Nat.eqb_refl.
  apply Nat.eqb_neq in Hn. now rewrite Hn.
Qed.

Lemma second_stage_length (B S Q : nat) (gamma1 : R) (scores : list ext) :
  length scores = B * S * Q ->
  length (second_stage B S Q gamma1 scores) = B * (Q * S).
Proof.
  intros Hlen. unfold second_stage. cbv zeta.
  set (first := concat (map softmax_row (chunks Q (B * S) scores))).
  assert (Hfirst : length first = B * (S * Q)).
  { unfold first. rewrite (@concat_uniform_length _ Q).
    - rewrite length_map, chunks_length. lia.
    - apply Forall_map.
      eapply Forall_impl; [|apply (chunks_uniform Q (B * S) scores); lia].
      intros r Hr. simpl in Hr. now rewrite softmax_row_length. }
  set (transposed := of3 (map (transpose Q) (to3 B S Q first))).
  assert (Htr : length transposed = B * (Q * S)).
  { unfold transposed.
    rewrite (of3_length (map_transpose_blocks (to3_blocks B S Q first Hfirst))).
    now rewrite length_map, to3_length. }
  rewrite (@concat_uniform_length _ S).
  - rewrite length_map, chunks_length. lia.
  - apply Forall_map.
    eapply Forall_impl; [|apply chunks_uniform; rewrite !length_map; lia].
    intros r Hr. simpl in Hr. now rewrite softmax_row_length.
Qed.

Lemma func_attention_ok (query context : Tensor R) (gamma1 : R) (scaled : bool)
      (B ndf Q B' n' ih iw : nat) :
  shape query = [B; ndf; Q] ->
  shape context = [B'; n'; ih; iw] ->
  wf query ->
  0 < B -> 0 < ih -> 0 < iw ->
  (scaled = true -> 0 < ndf) ->
  B' * n' = B * ndf ->
  exists (sc : Tensor ext) (wcd : list fl),
    func_attention_scores B ndf Q (ih * iw) query
      (mkTensor [B; ndf; ih * iw] (data context)) scaled = Ok sc /\
    shape sc = [B * (ih * iw); Q] /\
    length (data sc) = B * (ih * iw) * Q /\
    length wcd = B * (ndf * Q) /\
    func_attention query context gamma1 scaled
    = Ok (mkTensor [B; ndf; Q] wcd,
          mkTensor [B; Q; ih; iw] (second_stage B (ih * iw) Q gamma1 (data sc))).
Proof.
  intros Hq Hc Hwf HB Hih Hiw Hndf Hprod.
  unfold func_attention, size. rewrite Hq, Hc. cbn [unpack3 bind nth_error].
  unfold view_infer at 1. rewrite Hc, view_infer_context_product by assumption.
  rewrite Hprod, (Nat.mul_comm B ndf), Nat.Div0.mod_mul, Nat.div_mul by lia.
  cbn [Nat.eqb bind].
  set (ctx := mkTensor [B; ndf; ih * iw] (data context)).
  destruct (@stage_scores_ok query ctx scaled B ndf Q (ih * iw) Hq eq_refl Hndf)
    as (sc & Hsc & Hss & Hlen).
  specialize (Hlen Hwf).
  rewrite (@stage1_of_scores query ctx scaled B ndf Q (ih * iw) _ sc Hsc Hss).
  cbn [bind].
  rewrite view_ok by (simpl; lia). cbn [bind].
  unfold transpose12 at 1. cbn [shape data bind].
  rewrite view_ok by (simpl; lia). cbn [bind].
  unfold scale_fl, Softmax_implicit, softmax_dim1.
  cbn [shape data bind].
  rewrite view_ok by (simpl; lia). cbn [bind].
  unfold transpose12 at 1. cbn [shape data bind].
  subst ctx. unfold bmm_fl, bmm_with. cbn [shape data]. rewrite !Nat.eqb_refl.
  cbn [andb bind].
  unfold view_infer. cbn [shape data].
  assert (Hv : view_infer_shape [B; Q; ih * iw] [B] [ih; iw] = Ok [B; Q; ih; iw]).
  { unfold view_infer_shape.
    assert (Hk : numel [B] * numel [ih; iw] = B * (ih * iw)) by (simpl; lia).
    assert (Ht : numel [B; Q; ih * iw] = Q * (B * (ih * iw))) by (simpl; lia).
    rewrite Hk, Ht.
    replace (B * (ih * iw) =? 0) with false by (symmetry; apply Nat.eqb_neq; nia).
    rewrite Nat.Div0.mod_mul. cbn [Nat.eqb].
    rewrite Nat.div_mul by nia. reflexivity. }
  rewrite Hv. cbn [bind].
  eexists sc, _. split; [exact Hsc|]. split; [exact Hss|]. split; [exact Hlen|].
  split; [|reflexivity].
  apply bmm_data_length.
  pose proof (second_stage_length B (ih * iw) Q gamma1 (data sc) Hlen) as Hsec.
  unfold second_stage in Hsec. cbv zeta in Hsec.
  rewrite (of3_length (map_transpose_blocks (to3_blocks B Q (ih * iw) _ Hsec))).
  rewrite length_map, to3_length. lia.
Qed.

(** X7: [func_attention] never compares the batch or channel count of
    [context] with [query]: it needs only that their product is
    [batch_size * ndf].  Then it returns a weighted context of shape
    (batch_size, ndf, queryL) and an attention map of shape
    (batch_size, queryL, ih, iw), each with the entries its shape
    announces; with any other product the [view] or the first [bmm]
    raises. *)
Theorem func_attention_contract (query context : Tensor R) (gamma1 : R)
        (scaled : bool) (B ndf Q B' n' ih iw : nat) :
  shape query = [B; ndf; Q] ->
  shape context = [B'; n'; ih; iw] ->
  wf query ->
  0 < B -> 0 < ih -> 0 < iw ->
  (scaled = true -> 0 < ndf) ->
  (B' * n' = B * ndf ->
   exists wc attn : Tensor fl,
     func_attention query context gamma1 scaled = Ok (wc, attn) /\
     shape wc = [B; ndf; Q] /\ shape attn = [B; Q; ih; iw] /\
     wf wc /\ wf attn) /\
  (B' * n' <> B * ndf ->
   func_attention query context gamma1 scaled = Err RuntimeError).
Proof.
  intros Hq Hc Hwf HB Hih Hiw Hndf. split.
  - intros Hprod.
    destruct (@func_attention_ok query context gamma1 scaled B ndf Q B' n' ih iw
                Hq Hc Hwf HB Hih Hiw Hndf Hprod)
      as (sc & wcd & _ & _ & Hlen & Hwc & Hfa).
    eexists _, _. split; [exact Hfa|]. split; [reflexivity|].
    split; [reflexivity|]. unfold wf. cbn [shape data]. split.
    + rewrite Hwc. simpl. lia.
    + rewrite second_stage_length by assumption. simpl. lia.
  - intros Hprod.
    unfold func_attention, size. rewrite Hq, Hc. cbn [unpack3 bind nth_error].
    unfold view_infer at 1. rewrite Hc, view_infer_context_product by assumption.
    destruct ((B' * n') mod B =? 0) eqn:Hm; [|reflexivity].
    cbn [bind]. apply Nat.eqb_eq in Hm.
    rewrite (@stage1_wrong_features query
               (mkTensor [B; B' * n' / B; ih * iw] (data context))
               scaled B ndf (B' * n' / B) Q (ih * iw)
               Hq eq_refl); [reflexivity|].
    intros Heq. apply Hprod.
    apply Nat.Div0.div_exact in Hm. rewrite Hm, Heq. reflexivity.
Qed.

Lemma func_attention_contract_witness :
  (2 * 2 = 1 * 4 ->
   exists wc attn : Tensor fl,
     func_attention ex_query_four ex_context_two 4 true = Ok (wc, attn) /\
     shape wc = [1; 4; 1] /\ shape attn = [1; 1; 1; 2] /\
     wf wc /\ wf attn) /\
  (2 * 2 <> 1 * 4 ->
   func_attention ex_query_four ex_context_two 4 true = Err RuntimeError).
Proof.
  apply (@func_attention_contract ex_query_four ex_context_two 4 true
           1 4 1 2 2 1 2);
    first [ reflexivity | lia | intros; lia ].
Defined.

(** * Further properties of AttentionModule.forward *)

Lemma fully_masked_sample_nan_witness :
  exists (ctx : Tensor ext) (attn : Tensor fl),
    AttentionModule.forward (AttentionModule.apply_mask ex_module ex_mask_zero)
                            ex_images ex_words true = Ok (ctx, attn) /\
    get4 attn 0 1 0 1 = Some NaN.
Proof.
  apply (@fully_masked_sample_nan
           (AttentionModule.apply_mask ex_module ex_mask_zero)
           ex_images ex_words true 1 1 1 2 1 2 ex_mask_zero 0 1 0 1);
    try reflexivity; try lia.
  intros j Hj. destruct j as [|[|j]]; [reflexivity | reflexivity | lia].
Defined.

Lemma exp_ext_le_sum (row : list ext) (x : ext) :
  In x row -> (exp_ext x <= sumR (map exp_ext row))%R.
Proof.
  induction row as [|y row IH]; intros Hx; simpl in *; [tauto|].
  pose proof (exp_ext_nonneg y). pose proof (sum_exp_nonneg row).
  destruct Hx as [->|Hx]; [lra|]. specialize (IH Hx). lra.
Qed.

Lemma softmax_row_unit_interval (row : list ext) (l : nat) (v : fl) :
  existsb is_nan row = false ->
  existsb is_posinf row = false ->
  existsb is_finite row = true ->
  nth_error (softmax_row row) l = Some v ->
  exists r : R, v = Val r /\ (0 <= r <= 1)%R.
Proof.
  intros Hn Hp Hf Hl. rewrite (softmax_row_regular row Hn Hp Hf) in Hl.
  rewrite nth_error_map in Hl.
  destruct (nth_error row l) as [x|] eqn:Hx; [|discriminate].
  simpl in Hl. injection Hl as <-. eexists. split; [reflexivity|].
  pose proof (sum_exp_pos row Hf) as Hs.
  pose proof (exp_ext_nonneg x) as H0.
  pose proof (exp_ext_le_sum row x (nth_error_In _ _ Hx)) as Hle.
  split.
  - apply Rmult_le_pos; [exact H0|]. left. now apply Rinv_0_lt_compat.
  - apply (Rmult_le_reg_r (sumR (map exp_ext row))); [exact Hs|].
    unfold Rdiv. rewrite Rmult_assoc, Rinv_l by lra. lra.
Qed.

(** X10: in a sample whose mask row has a non-zero entry, at every
    spatial location where the scores of the unmasked words are finite
    floats, every attention weight is a real number between 0 and 1.
    The channel count C and the embedding size E are positive. *)
Theorem attention_weights_unit_interval (self : AttentionModule.t)
        (images words : Tensor R) (scaled : bool) (B C H W E L : nat)
        (m : Tensor Z) (s : Tensor ext) (b l y x : nat) :
  shape images = [B; C; H; W] ->
  shape words = [B; E; L] ->
  AttentionModule.mask self = Some m ->
  shape m = [B; L] ->
  in_planes (AttentionModule.conv1 self) = E ->
  out_planes (AttentionModule.conv1 self) = C ->
  0 < E -> 0 < C ->
  wf words -> wf m ->
  b < B -> l < L -> y < H -> x < W ->
  (exists j z, j < L /\ get2 m b j = Some z /\ z <> 0%Z) ->
  attention_scores self images words scaled = Ok s ->
  (forall j z, j < L -> get2 m b j = Some z -> z <> 0%Z ->
     finite (get2 s (b * (H * W) + (y * W + x)) j)) ->
  exists (ctx : Tensor ext) (attn : Tensor fl) (r : R),
    AttentionModule.forward self images words scaled = Ok (ctx, attn) /\
    get4 attn b l y x = Some (Val r) /\
    (0 <= r <= 1)%R.
Proof.
  intros Hi Hw Hm Hms Hin Hout HE HC Hwfw Hwfm Hb Hl Hy Hx (j & z & Hj & Hz & Hnz)
         Hs Hfin.
  destruct (@forward_entries self images words scaled B C H W E L m
              Hi Hw Hm Hms Hin Hout HC Hwfw Hwfm ltac:(lia))
    as (s' & ctx & attn & Hs' & Hfw & Hss & Hlen & _ & _ & Hent).
  rewrite Hs in Hs'. injection Hs' as <-.
  set (i := b * (H * W) + (y * W + x)) in *.
  assert (Hi' : i < B * (H * W)).
  { apply index_lt; auto. now apply index_lt. }
  pose proof (@masked_rows_aligned B (H * W) L m (data s) b i Hms Hwfm Hlen Hb Hi')
    as Hal.
  assert (Hmrow : length (row_at L b (data m)) = L).
  { apply row_at_length. unfold wf in Hwfm. rewrite Hwfm, Hms. simpl. nia. }
  set (row := map fill (combine (row_at L i (data s)) (row_at L b (data m)))).
  pose proof (@filled_row_regular B L _ m s b i Hms Hss Hfin) as Hreg.
  destruct (fill_regular _ _ Hreg) as (Hnan & Hpos).
  assert (Hfinite : existsb is_finite row = true).
  { apply (@fill_finite _ _ j z Hal); auto.
    - now rewrite (@mask_row_entry B L m b j Hms Hj).
    - apply (Hreg j z); auto. now rewrite (@mask_row_entry B L m b j Hms Hj). }
  assert (Hrowlen : length (softmax_row row) = L).
  { rewrite softmax_row_length. unfold row.
    rewrite length_map, length_combine. lia. }
  destruct (@nth_error_in_range _ (softmax_row row) l ltac:(lia)) as (v & Hv).
  destruct (softmax_row_unit_interval row l Hnan Hpos Hfinite Hv)
    as (r & -> & Hr).
  exists ctx, attn, r. split; [exact Hfw|]. split; [|exact Hr].
  rewrite (Hent b l y x Hb Hl Hy Hx). exact Hv.
Qed.

Lemma attention_weights_unit_interval_witness :
  exists (ctx : Tensor ext) (attn : Tensor fl) (r : R),
    AttentionModule.forward (AttentionModule.apply_mask ex_module ex_mask)
                            ex_images ex_words true = Ok (ctx, attn) /\
    get4 attn 0 0 0 1 = Some (Val r) /\
    (0 <= r <= 1)%R.
Proof.
  apply (@attention_weights_unit_interval
           (AttentionModule.apply_mask ex_module ex_mask)
           ex_images ex_words true 1 1 1 2 1 2 ex_mask
           (scores_of (AttentionModule.apply_mask ex_module ex_mask)
                      ex_images ex_words true 1 1 1 2 1 2) 0 0 0 1);
    try reflexivity; try lia.
  - exists 0, 1%Z. repeat split; [lia | discriminate].
  - intros j z Hj _ _. apply ex_scores_finite; [simpl; lia | exact Hj].
Defined.




(** ** The second softmax of func_attention *)

(** Entry [(b, j, i)] of a transposed batch is entry [(b, i, j)] of the
    batch. *)
Lemma transposed_entry {A : Type} (B m n : nat) (l : list A) (b i j : nat) :
  length l = B * (m * n) ->
  b < B -> i < m -> j < n ->
  nth_error (of3 (map (transpose n) (to3 B m n l))) ((b * n + j) * m + i)
  = nth_error l ((b * m + i) * n + j).
Proof.
  intros Hl Hb Hi Hj.
  pose proof (to3_blocks B m n l Hl) as HX.
  destruct (@to3_row _ B m n l b i Hb Hi) as (blk & Hblk & Hrow).
  assert (Hblk_ok : block_ok m n blk).
  { rewrite Forall_forall in HX. apply HX. eapply nth_error_In; eauto. }
  destruct (transpose_block Hblk_ok) as [HTlen HTu].
  destruct (nth_error (transpose n blk) j) as [col|] eqn:Hcol.
  2:{ apply nth_error_None in Hcol. lia. }
  rewrite (@nth_error_of3 _ n m _ b (transpose n blk) j col i
             (map_transpose_blocks HX)); auto.
  2:{ rewrite nth_error_map, Hblk. reflexivity. }
  rewrite (@nth_error_transpose _ n blk j col i _ (proj2 Hblk_ok) Hcol Hrow).
  now apply nth_error_row_at.
Qed.

Lemma sharpened_finite (a gamma1 : R) :
  (0 <= a <= 1)%R -> (Rabs gamma1 <= fmax)%R ->
  ext_mul (fl_to_ext (Val a)) (rnd gamma1) = Fin (a * gamma1).
Proof.
  intros Ha Hg. rewrite (rnd_fin _ Hg). cbn [fl_to_ext]. apply ext_mul_fin.
  rewrite Rabs_mult, (Rabs_pos_eq a) by lra.
  pose proof (Rabs_pos gamma1). nra.
Qed.

(** With the shapes of [query] and [context] agreeing, the scores of a
    call are those of the flattened context. *)
Lemma first_scores_unfold (query context : Tensor R) (scaled : bool)
      (B ndf Q ih iw : nat) :
  shape query = [B; ndf; Q] ->
  shape context = [B; ndf; ih; iw] ->
  0 < B -> 0 < ih -> 0 < iw ->
  func_attention_first_scores query context scaled
  = func_attention_scores B ndf Q (ih * iw) query
      (mkTensor [B; ndf; ih * iw] (data context)) scaled.
Proof.
  intros Hq Hc HB Hih Hiw.
  unfold func_attention_first_scores, size. rewrite Hq, Hc.
  cbn [unpack3 bind nth_error].
  unfold view_infer. rewrite Hc, view_infer_context by assumption. reflexivity.
Qed.

(** X8: in the attention map [func_attention] returns, the weights of
    a sample and query position are real numbers that sum to 1 over the
    spatial locations: the second softmax is the one that runs over the
    source axis.  The scores of the sample are finite floats (none has
    overflowed) and so is [gamma1] in single precision. *)
Theorem func_attention_sums_over_source (query context : Tensor R) (gamma1 : R)
        (scaled : bool) (B ndf Q ih iw : nat) (b q : nat) (sc : Tensor ext) :
  shape query = [B; ndf; Q] ->
  shape context = [B; ndf; ih; iw] ->
  wf query ->
  0 < ih -> 0 < iw ->
  (scaled = true -> 0 < ndf) ->
  b < B -> q < Q ->
  (Rabs gamma1 <= fmax)%R ->
  func_attention_first_scores query context scaled = Ok sc ->
  (forall s q', s < ih * iw -> q' < Q ->
     finite (get2 sc (b * (ih * iw) + s) q')) ->
  exists (wc attn : Tensor fl) (ws : list R),
    func_attention query context gamma1 scaled = Ok (wc, attn) /\
    length ws = ih * iw /\
    (forall y x, y < ih -> x < iw ->
       get4 attn b q y x = Some (Val (nth (y * iw + x) ws 0%R))) /\
    sumR ws = 1%R.
Proof.
  intros Hq Hc Hwf Hih Hiw Hndf Hb Hq' Hgamma Hsc Hfin.
  destruct (@func_attention_ok query context gamma1 scaled B ndf Q B ndf ih iw
              Hq Hc Hwf ltac:(lia) Hih Hiw Hndf eq_refl)
    as (sc' & wcd & Hsc' & Hss & Hlen & _ & Hfa).
  rewrite (@first_scores_unfold query context scaled B ndf Q ih iw Hq Hc)
    in Hsc by lia.
  rewrite Hsc in Hsc'. injection Hsc' as <-.
  set (SL := ih * iw) in *.
  assert (HS : 0 < SL) by (unfold SL; nia).
  set (rows1 := chunks Q (B * SL) (data sc)).
  set (first := concat (map softmax_row rows1)).
  set (transposed := of3 (map (transpose Q) (to3 B SL Q first))).
  set (sharpened := map (fun x => ext_mul (fl_to_ext x) (rnd gamma1)) transposed).
  set (rows := chunks SL (B * Q) sharpened).
  assert (Hsec : second_stage B SL Q gamma1 (data sc) = concat (map softmax_row rows))
    by reflexivity.
  assert (Hrows1 : uniform Q (map softmax_row rows1)).
  { apply Forall_map.
    eapply Forall_impl; [|apply (chunks_uniform Q (B * SL) (data sc)); lia].
    intros r0 Hr0. simpl in Hr0. now rewrite softmax_row_length. }
  assert (Hfirstlen : length first = B * (SL * Q)).
  { unfold first. rewrite (concat_uniform_length Hrows1). unfold rows1.
    rewrite length_map, chunks_length. lia. }
  assert (Htrlen : length transposed = B * (Q * SL)).
  { unfold transposed.
    rewrite (of3_length (map_transpose_blocks (to3_blocks B SL Q first Hfirstlen))).
    now rewrite length_map, to3_length. }
  set (r := b * Q + q).
  assert (Hr : r < B * Q) by now apply index_lt.
  (* the first-stage weights of the sample at the query position *)
  assert (Hfirst : forall s, s < SL ->
            exists a : R, nth_error transposed (r * SL + s) = Some (Val a) /\
                          (0 <= a <= 1)%R).
  { intros s Hs. unfold transposed, r.
    rewrite (@transposed_entry _ B SL Q first b s q Hfirstlen Hb Hs Hq').
    set (i := b * SL + s).
    assert (Hi : i < B * SL) by now apply index_lt.
    set (row := row_at Q i (data sc)).
    assert (Hrowlen : length row = Q).
    { apply row_at_length. rewrite Hlen. nia. }
    unfold first.
    rewrite (@nth_error_concat_uniform _ Q (map softmax_row rows1) i
               (softmax_row row) q Hrows1); auto.
    2:{ unfold rows1. now rewrite nth_error_map, (@nth_error_chunks _ Q _ _ i Hi). }
    destruct (@finite_row_regular row) as (Hnan & Hpos & Hfinite).
    { intros q0 Hq0. unfold row. rewrite (@row_entry _ _ Q sc i q0 Hss) by lia.
      apply Hfin; lia. }
    assert (Hne : row <> []) by (intros E0; rewrite E0 in Hrowlen; simpl in *; lia).
    destruct (@nth_error_in_range _ (softmax_row row) q) as (v & Hv).
    { rewrite softmax_row_length. lia. }
    destruct (softmax_row_unit_interval row q Hnan Hpos (Hfinite Hne) Hv)
      as (a & -> & Ha).
    exists a. auto. }
  set (row := row_at SL r sharpened).
  assert (Hsharplen : length sharpened = B * (Q * SL)).
  { unfold sharpened. now rewrite length_map. }
  assert (Hrowlen : length row = SL).
  { apply row_at_length. rewrite Hsharplen. nia. }
  assert (Hrow : nth_error rows r = Some row).
  { unfold rows. now rewrite (@nth_error_chunks _ SL (B * Q) _ r Hr). }
  destruct (@finite_row_regular row) as (Hnan & Hpos & Hfinite).
  { intros s Hs. rewrite Hrowlen in Hs. unfold row.
    rewrite (@nth_error_row_at _ SL r sharpened s Hs). unfold sharpened.
    rewrite nth_error_map. destruct (Hfirst s Hs) as (a & -> & Ha).
    cbn [option_map]. rewrite (@sharpened_finite a gamma1 Ha Hgamma).
    eexists. reflexivity. }
  assert (Hne : row <> []) by (intros E0; rewrite E0 in Hrowlen; simpl in *; lia).
  destruct (softmax_row_sum row Hnan Hpos (Hfinite Hne)) as (ws & Hsm & Hwslen & Hsum).
  eexists _, _, ws. split; [exact Hfa|]. split; [lia|]. split; [|exact Hsum].
  intros y x Hy Hx. unfold get4. cbn [shape data]. rewrite Hsec.
  replace (((b * Q + q) * ih + y) * iw + x) with (r * SL + (y * iw + x))
    by (unfold r, SL; lia).
  assert (Hu : uniform SL (map softmax_row rows)).
  { apply Forall_map.
    eapply Forall_impl;
      [|apply (chunks_uniform SL (B * Q) sharpened); lia].
    intros r0 Hr0. simpl in Hr0. now rewrite softmax_row_length. }
  rewrite (@nth_error_concat_uniform _ SL (map softmax_row rows) r
             (softmax_row row) (y * iw + x) Hu).
  - rewrite Hsm. apply nth_error_map_Val. rewrite Hwslen, Hrowlen.
    unfold SL. now apply index_lt.
  - now rewrite nth_error_map, Hrow.
  - unfold SL. now apply index_lt.
Qed.

Lemma func_attention_sums_over_source_witness :
  exists (wc attn : Tensor fl) (ws : list R),
    func_attention ex_query ex_context 4 true = Ok (wc, attn) /\
    length ws = 1 * 2 /\
    (forall y x, y < 1 -> x < 2 ->
       get4 attn 0 0 y x = Some (Val (nth (y * 2 + x) ws 0%R))) /\
    sumR ws = 1%R.
Proof.
  destruct ex_first_scores as (a & b & Hsc).
  apply (@func_attention_sums_over_source ex_query ex_context 4 true
           1 1 1 1 2 0 0 (mkTensor [1 * (1 * 2); 1] [Fin a; Fin b]));
    first [ exact Hsc | reflexivity | lia | intros; lia | idtac ].
  - unfold fmax. apply Rabs_le. split; lra.
  - intros s q' Hs Hq. destruct q' as [|q']; [|lia].
    destruct s as [|[|s]]; [| |lia]; eexists; reflexivity.
Defined.

(** ** The weighted context *)

Lemma nth_error_combine {A B : Type} (l : list A) (l' : list B) (k : nat)
      (a : A) (b : B) :
  nth_error l k = Some a -> nth_error l' k = Some b ->
  nth_error (combine l l') k = Some (a, b).
Proof.
  intros Ha Hb.
  pose proof (@nth_error_map_combine _ _ _ (fun p : A * B => p) l l' k a b Ha Hb)
    as H.
  now rewrite map_id in H.
Qed.

(** Entry [(b, c, p)] of the weighted context is the inner product of
    row [(b, c)] of the projected words with the attention weights of
    sample [b] at location [p]. *)
Lemma weighted_context_entry (B C L hw : nat) (wproj : list ext) (attn : list fl)
      (b c p : nat) :
  length attn = B * (L * hw) ->
  b < B -> c < C -> p < hw ->
  exists col : list ext,
    length col = L /\
    (forall l, l < L ->
       nth_error col l
       = nth_error (map fl_to_ext attn) ((b * L + l) * hw + p)) /\
    nth_error (weighted_context B C L hw wproj attn) ((b * C + c) * hw + p)
    = Some (dot (row_at L (b * C + c) wproj) col).
Proof.
  intros Hattn Hb Hc Hp. unfold weighted_context.
  set (ax := map fl_to_ext attn).
  assert (Hax : length ax = B * (L * hw)) by (unfold ax; now rewrite length_map).
  destruct (@to3_row _ B C L wproj b c Hb Hc) as (blkA & HblkA & Hrowc).
  destruct (nth_error (to3 B L hw ax) b) as [blkB|] eqn:HblkB.
  2:{ apply nth_error_None in HblkB. rewrite to3_length in HblkB. lia. }
  assert (HokB : block_ok L hw blkB).
  { pose proof (to3_blocks B L hw ax Hax) as HF.
    rewrite Forall_forall in HF. apply HF. eapply nth_error_In; eauto. }
  destruct (transpose_block HokB) as [HTlen HTu].
  destruct (nth_error (transpose hw blkB) p) as [col|] eqn:Hcol.
  2:{ apply nth_error_None in Hcol. lia. }
  exists col. split; [|split].
  - apply (@uniform_nth_error _ L (transpose hw blkB) p col HTu Hcol).
  - intros l Hl.
    destruct (@to3_row _ B L hw ax b l Hb Hl) as (blkB' & HblkB' & Hrowl).
    rewrite HblkB in HblkB'. injection HblkB' as <-.
    rewrite (@nth_error_transpose _ hw blkB p col l _ (proj2 HokB) Hcol Hrowl).
    apply nth_error_row_at. exact Hp.
  - rewrite (@nth_error_of3 _ C hw _ b (matmul dot hw blkA blkB) c
               (map (dot (row_at L (b * C + c) wproj)) (transpose hw blkB)) p).
    + now rewrite nth_error_map, Hcol.
    + now apply bmm_data_blocks.
    + rewrite nth_error_map, (@nth_error_combine _ _ _ _ b blkA blkB HblkA HblkB).
      reflexivity.
    + unfold matmul. now rewrite nth_error_map, Hrowc.
    + exact Hp.
Qed.

Lemma Forall_of_nth_error {A : Type} (P : A -> Prop) (l : list A) :
  (forall k v, nth_error l k = Some v -> P v) -> Forall P l.
Proof.
  intros H. apply Forall_forall. intros x Hx.
  apply In_nth_error in Hx. destruct Hx as (k & Hk). eauto.
Qed.

(** One [nan] weight is enough to make the inner product [nan]: here
    all of them are. *)
Lemma dot_nan (u v : list ext) :
  length u = length v -> v <> [] ->
  Forall (fun x => x = NaNx) v ->
  dot u v = NaNx.
Proof.
  intros Hlen Hne Hv. destruct v as [|x v]; [congruence|].
  destruct u as [|a u]; [discriminate|].
  inversion Hv as [|? ? Hx _]; subst.
  unfold dot. cbn [combine fold_left fst snd].
  rewrite ext_mul_nan_r. cbn [ext_add].
  generalize (combine u v). intros l. induction l as [|p l IH]; auto.
Qed.

(** X12: in a sample whose mask row is zero throughout every entry of
    the weighted context is [nan], whatever the images, the words and
    the mask rows of the other samples are.  All sizes are positive. *)
Theorem weighted_context_by_sample (self : AttentionModule.t)
        (images words : Tensor R) (scaled : bool) (B C H W E L : nat)
        (m : Tensor Z) (b c y x : nat) :
  shape images = [B; C; H; W] ->
  shape words = [B; E; L] ->
  AttentionModule.mask self = Some m ->
  shape m = [B; L] ->
  in_planes (AttentionModule.conv1 self) = E ->
  out_planes (AttentionModule.conv1 self) = C ->
  0 < E -> 0 < C -> 0 < L ->
  wf words -> wf m ->
  b < B -> c < C -> y < H -> x < W ->
  (forall j, j < L -> get2 m b j = Some 0%Z) ->
  exists (ctx : Tensor ext) (attn : Tensor fl),
    AttentionModule.forward self images words scaled = Ok (ctx, attn) /\
    get4 ctx b c y x = Some NaNx.
Proof.
  intros Hi Hw Hm Hms Hin Hout HE HC HL Hwfw Hwfm Hb Hc Hy Hx Hzero.
  pose proof (@forward_ok self images words scaled B C H W E L m
                Hi Hw Hm Hms Hin Hout HC HL) as Hfw.
  pose proof (@scores_of_length self images words scaled B C H W E L
                Hw Hwfw Hout) as Hlen.
  eexists _, _. split; [exact Hfw|].
  unfold get4. cbn [shape data].
  replace (((b * C + c) * H + y) * W + x)
    with ((b * C + c) * (H * W) + (y * W + x)) by lia.
  set (hw := H * W) in *. set (p := y * W + x).
  set (scores := data (scores_of self images words scaled B C H W E L)) in *.
  assert (Hp : p < hw) by now apply index_lt.
  assert (Hmd : length (data m) = B * L).
  { unfold wf in Hwfm. rewrite Hwfm, Hms. simpl. lia. }
  set (attn := attention_weights B hw L scores (data m)).
  assert (Hattn : length attn = B * (L * hw))
    by now apply attention_weights_length.
  set (wproj := data (conv_words self B E L words)).
  assert (Hwproj : length wproj = B * (C * L)).
  { unfold wproj, conv_words. cbn [data]. rewrite Hout.
    rewrite (@conv1x1_data_length B C E (L * 1)); [lia| |apply chunks_length].
    rewrite length_map. unfold wf in Hwfw. rewrite Hwfw, Hw. simpl. lia. }
  destruct (@weighted_context_entry B C L hw wproj attn b c p Hattn Hb Hc Hp)
    as (col & Hcol & Hent & ->).
  f_equal. apply dot_nan.
  - rewrite Hcol. apply row_at_length. rewrite Hwproj.
    assert (b * C + c < B * C) by now apply index_lt. nia.
  - intros E0. rewrite E0 in Hcol. simpl in Hcol. lia.
  - apply Forall_of_nth_error. intros l v Hv.
    assert (Hl : l < L).
    { rewrite <- Hcol. apply nth_error_Some. congruence. }
    rewrite (Hent l Hl), nth_error_map in Hv.
    unfold attn in Hv.
    rewrite (@attention_weights_entry B hw L scores (data m) b l p
               Hlen Hmd Hb Hl Hp) in Hv.
    assert (Hal : length (row_at L (b * hw + p) scores)
                  = length (row_at L b (data m))).
    { apply (@masked_rows_aligned B hw L m scores b _ Hms Hwfm Hlen Hb).
      now apply index_lt. }
    rewrite (@softmax_row_degenerate _ l NegInf) in Hv.
    + simpl in Hv. congruence.
    + apply fill_all_masked. intros z Hz.
      apply In_nth_error in Hz. destruct Hz as (j & Hj).
      assert (Hjl : j < L).
      { assert (Hjr : j < length (row_at L b (data m)))
          by (apply nth_error_Some; congruence).
        unfold row_at in Hjr. rewrite length_firstn in Hjr. lia. }
      rewrite (@mask_row_entry B L m b j Hms Hjl), (Hzero j Hjl) in Hj. congruence.
    + apply fill_masked; auto.
      rewrite (@mask_row_entry B L m b l Hms Hl). now apply Hzero.
Qed.

Lemma weighted_context_by_sample_witness :
  exists (ctx : Tensor ext) (attn : Tensor fl),
    AttentionModule.forward (AttentionModule.apply_mask ex_module ex_mask_mixed)
                            ex_images_two ex_words_two true = Ok (ctx, attn) /\
    get4 ctx 1 0 0 1 = Some NaNx.
Proof.
  apply (@weighted_context_by_sample
           (AttentionModule.apply_mask ex_module ex_mask_mixed)
           ex_images_two ex_words_two true 2 1 1 2 1 2 ex_mask_mixed 1 0 0 1);
    try reflexivity; try lia.
  intros j Hj. destruct j as [|[|j]]; [reflexivity | reflexivity | lia].
Defined.

(** ** What of the mask is read *)

Lemma chunks_map {A B : Type} (g : A -> B) (n k : nat) (l : list A) :
  chunks n k (map g l) = map (map g) (chunks n k l).
Proof.
  revert l. induction k as [|k IH]; intros l; simpl; auto.
  now rewrite firstn_map, skipn_map, IH.
Qed.

Lemma flat_repeat_map {A B : Type} (g : A -> B) (h : nat) (rows : list (list A)) :
  flat_map (fun r => repeat r h) (map (map g) rows)
  = map (map g) (flat_map (fun r => repeat r h) rows).
Proof.
  induction rows as [|r rows IH]; simpl; auto.
  rewrite map_app, IH. f_equal.
  clear. induction h as [|h IH]; simpl; auto. now rewrite IH.
Qed.

(** The buffer of the repeated mask, seen through [g]. *)
Lemma repeat_interleave_map {A B : Type} (g : A -> B) (L B0 hw : nat) (d : list A) :
  map g (concat (flat_map (fun row => repeat row hw) (chunks L B0 d)))
  = concat (flat_map (fun row => repeat row hw) (chunks L B0 (map g d))).
Proof.
  now rewrite chunks_map, flat_repeat_map, concat_map.
Qed.

Lemma fill_through_is_zero (s : list ext) (d : list Z) :
  map fill (combine s d)
  = map (fun xb : ext * bool => if snd xb then NegInf else fst xb)
        (combine s (map is_zero d)).
Proof.
  revert d. induction s as [|x s IH]; intros [|z d]; simpl; auto.
  now rewrite IH.
Qed.

Lemma masked_fill_same_zeros (attn : Tensor ext) (m1 m2 : Tensor Z) (hw : nat) :
  shape m1 = shape m2 ->
  map is_zero (data m1) = map is_zero (data m2) ->
  (mask <- repeat_interleave m1 hw ;; masked_fill attn mask)
  = (mask <- repeat_interleave m2 hw ;; masked_fill attn mask).
Proof.
  intros Hs Hz. unfold repeat_interleave. rewrite <- Hs.
  destruct (shape m1) as [|b [|l [|? ?]]]; try reflexivity.
  cbn [bind]. unfold masked_fill. cbn [shape data].
  destruct (list_nat_eqb (shape attn) [b * hw; l]); [|reflexivity].
  do 2 f_equal. rewrite !fill_through_is_zero, !repeat_interleave_map.
  now rewrite Hz.
Qed.

Lemma bind_ext {A B : Type} (m : result A) (k1 k2 : A -> result B) :
  (forall a, k1 a = k2 a) -> bind m k1 = bind m k2.
Proof. intros H. destruct m; simpl; auto. Qed.

Lemma bind_assoc {A B C : Type} (m : result A) (f : A -> result B)
      (g : B -> result C) :
  bind (bind m f) g = bind m (fun a => bind (f a) g).
Proof. destruct m; reflexivity. Qed.

(** X13: [forward] reads the mask only through its shape and through
    which of its entries are zero: two masks of one shape with zeros at
    the same positions give the same result or the same error. *)
Theorem forward_reads_zero_pattern (self : AttentionModule.t)
        (images words : Tensor R) (scaled : bool) (m1 m2 : Tensor Z) :
  shape m1 = shape m2 ->
  map is_zero (data m1) = map is_zero (data m2) ->
  AttentionModule.forward (AttentionModule.apply_mask self m1) images words scaled
  = AttentionModule.forward (AttentionModule.apply_mask self m2) images words scaled.
Proof.
  intros Hs Hz.
  unfold AttentionModule.forward, AttentionModule.mask_shape,
    AttentionModule.get_mask, AttentionModule.apply_mask.
  cbn [AttentionModule.mask AttentionModule.conv1]. rewrite <- Hs.
  repeat (apply bind_ext; intros; repeat match goal with
          | p : (_ * _)%type |- _ => destruct p end).
  cbn [bind].
  repeat (apply bind_ext; intros).
  match goal with
  | |- bind (repeat_interleave m1 ?hw) (fun mask => bind (masked_fill ?t mask) ?k)
       = _ =>
      rewrite <- (bind_assoc (repeat_interleave m1 hw)
                             (fun mask => masked_fill t mask) k),
              <- (bind_assoc (repeat_interleave m2 hw)
                             (fun mask => masked_fill t mask) k),
              (@masked_fill_same_zeros t m1 m2 hw Hs Hz)
  end.
  reflexivity.
Qed.

Lemma forward_reads_zero_pattern_witness :
  AttentionModule.forward (AttentionModule.apply_mask ex_module ex_mask)
                          ex_images ex_words true
  = AttentionModule.forward (AttentionModule.apply_mask ex_module ex_mask_twos)
                            ex_images ex_words true.
Proof.
  apply (@forward_reads_zero_pattern ex_module ex_images ex_words true
           ex_mask ex_mask_twos); reflexivity.
Defined.

(** * Further properties of the generator stages *)

Lemma make_layer_repeat (n channel_num : nat) :
  GenNextStage._make_layer n channel_num
  = repeat (Layers.ResBlock_init channel_num) n.
Proof.
  induction n as [|n IH]; simpl; auto.
  rewrite IH. clear. induction n as [|n IH]; simpl; auto. now rewrite <- IH.
Qed.

(** X14: [_make_layer] returns [num_residual_blocks] blocks, each built
    for [channel_num] channels.  An empty stack returns every input as
    it is.  A stack of at least one block keeps the shape of an input
    of [channel_num] channels and more than one value per channel; with
    one value per channel the batch normalization of its first block,
    in training mode, raises, and on any other channel count the first
    convolution raises.  All sizes are positive. *)
Theorem make_layer_contract (n channel_num b c h w : nat) :
  0 < channel_num -> 0 < b -> 0 < h -> 0 < w ->
  GenNextStage._make_layer n channel_num
  = repeat (Layers.ResBlock_init channel_num) n /\
  GenNextStage.residual_shape (GenNextStage._make_layer n channel_num) [b; c; h; w]
  = if n =? 0 then Ok [b; c; h; w]
    else if c =? channel_num
         then (if b * (h * w) =? 1 then Err ValueError else Ok [b; c; h; w])
         else Err RuntimeError.
Proof.
  intros Hcn Hb Hh Hw. split; [apply make_layer_repeat|].
  destruct n as [|n]; [reflexivity|]. cbn [Nat.eqb].
  destruct (c =? channel_num) eqn:Hc.
  - apply Nat.eqb_eq in Hc. subst c.
    destruct (Nat.eqb_spec (b * (h * w)) 1) as [Hv|Hv].
    + rewrite make_layer_repeat. cbn [repeat GenNextStage.residual_shape].
      unfold Layers.ResBlock_shape, Layers.ResBlock_init.
      cbn [Layers.block Layers.seq_shape].
      rewrite conv3x3_shape by lia. cbn [bind].
      rewrite BatchNorm2d_training, Hv. reflexivity.
    + now apply make_layer_shape.
  - apply Nat.eqb_neq in Hc.
    rewrite make_layer_repeat. cbn [repeat GenNextStage.residual_shape].
    unfold Layers.ResBlock_shape, Layers.ResBlock_init.
    cbn [Layers.block Layers.seq_shape]. unfold Layers.conv3x3 at 1.
    now rewrite conv_wrong_channels.
Qed.

Lemma make_layer_contract_witness :
  GenNextStage._make_layer 2 64 = repeat (Layers.ResBlock_init 64) 2 /\
  GenNextStage.residual_shape (GenNextStage._make_layer 2 64) [1; 64; 8; 8]
  = if 2 =? 0 then Ok [1; 64; 8; 8]
    else if 64 =? 64
         then (if 1 * (8 * 8) =? 1 then Err ValueError else Ok [1; 64; 8; 8])
         else Err RuntimeError.
Proof. apply (@make_layer_contract 2 64 1 64 8 8); lia. Defined.

(** X15: the initial stage reads the widths of [noise] and [sentence]
    only through their sum: with equal batch sizes of at least 2 and
    widths adding up to [z_dim + emb_dim] it returns
    (batch, gf_dim // 16, 64, 64); on a single sample the batch
    normalization of [fc], in training mode, raises; and with anything
    else [torch.cat] or the linear layer raises.  The base width is at
    least 16. *)
Theorem GenInitialStage_input_check (gf_dim z_dim emb_dim b b' z' e' : nat) :
  16 <= gf_dim -> 0 < b ->
  GenInitialStage.forward (GenInitialStage.define_module gf_dim z_dim emb_dim)
                          [b; z'] [b'; e']
  = if (b =? b') && (z' + e' =? z_dim + emb_dim)
    then (if b =? 1 then Err ValueError else Ok [b; gf_dim / 16; 64; 64])
    else Err RuntimeError.
Proof.
  intros Hg Hb0.
  destruct (b =? b') eqn:Hb.
  - apply Nat.eqb_eq in Hb. subst b'.
    destruct (z' + e' =? z_dim + emb_dim) eqn:Hz; cbn [andb].
    + apply Nat.eqb_eq in Hz.
      rewrite <- (@initial_stage_shape gf_dim z_dim emb_dim b Hg).
      unfold GenInitialStage.forward. rewrite !cat1_shape_rank2, Hz. reflexivity.
    + unfold GenInitialStage.forward. rewrite cat1_shape_rank2. cbn [bind].
      cbn [GenInitialStage.define_module GenInitialStage.fc Layers.seq_shape].
      cbn [Layers.layer_shape rev app]. now rewrite Hz.
  - unfold GenInitialStage.forward, Layers.cat1_shape. now rewrite Hb.
Qed.

Lemma GenInitialStage_input_check_witness :
  GenInitialStage.forward (GenInitialStage.define_module 32 100 256)
                          [2; 101] [2; 255]
  = if (2 =? 2) && (101 + 255 =? 100 + 256)
    then (if 2 =? 1 then Err ValueError else Ok [2; 32 / 16; 64; 64])
    else Err RuntimeError.
Proof.
  apply (@GenInitialStage_input_check 32 100 256 2 2 101 255); lia.
Defined.




(** X17: a call of a next stage leaves nothing behind that a later call
    reads: on the module a successful call returns, any further call
    behaves as on the module before it, the mask of the first call
    being replaced before the attention runs. *)
Theorem GenNextStage_calls_independent (self self1 : GenNextStage.t)
        (images1 words1 images2 words2 : Tensor R) (mask1 mask2 : Tensor Z)
        (r1 : list nat * Tensor fl) :
  GenNextStage.forward self images1 words1 mask1 = Ok (self1, r1) ->
  GenNextStage.forward self1 images2 words2 mask2
  = GenNextStage.forward self images2 words2 mask2.
Proof.
  intros H1. unfold GenNextStage.forward in H1.
  cbn [GenNextStage.attention GenNextStage.residual GenNextStage.upsample] in H1.
  destruct (AttentionModule.forward _ images1 words1 true) as [[ctx attn]|e];
    [|discriminate].
  cbn [bind] in H1.
  destruct (Layers.cat1_shape _ _) as [s|e]; [|discriminate]. cbn [bind] in H1.
  destruct (GenNextStage.residual_shape _ s) as [s'|e]; [|discriminate].
  cbn [bind] in H1.
  destruct (Layers.seq_shape _ s') as [s''|e]; [|discriminate].
  cbn [bind] in H1. injection H1 as <- _.
  reflexivity.
Qed.

Lemma GenNextStage_calls_independent_witness :
  exists (self1 : GenNextStage.t) (r1 : list nat * Tensor fl),
    GenNextStage.forward ex_stage ex_images ex_words ex_mask = Ok (self1, r1) /\
    GenNextStage.forward self1 ex_images ex_words ex_mask_zero
    = GenNextStage.forward ex_stage ex_images ex_words ex_mask_zero.
Proof.
  eexists _, _. split; [reflexivity|].
  eapply (@GenNextStage_calls_independent ex_stage _
            ex_images ex_words ex_images ex_words ex_mask ex_mask_zero).
  reflexivity.
Defined.



(** * The gated linear unit by shape *)

Lemma even_halves (nc : nat) :
  nc mod 2 = 0 -> Nat.min (nc / 2) nc = nc / 2 /\ nc - nc / 2 = nc / 2.
Proof.
  intros Hm. apply Nat.Div0.div_exact in Hm. lia.
Qed.

(** X19: whether the gated linear unit accepts an input, the error it
    raises and the shape it returns depend on the shape of the input
    only: an [IndexError] below rank 2, the failed assertion on an odd
    channel count, and otherwise half the channels with every other
    size kept; the two halves always have one shape, so that their
    product never raises. *)
Theorem GLU_forward_by_shape (x : Tensor R) :
  match Layers.GLU_forward x with
  | Ok y => Layers.GLU_shape (shape x) = Ok (shape y)
  | Err e => Layers.GLU_shape (shape x) = Err e
  end /\
  (length (shape x) < 2 -> Layers.GLU_forward x = Err IndexError) /\
  (forall b nc rest, shape x = b :: nc :: rest ->
     Layers.GLU_forward x = Err AssertionError \/
     exists y, Layers.GLU_forward x = Ok y /\ shape y = b :: nc / 2 :: rest).
Proof.
  unfold Layers.GLU_forward, Layers.GLU_shape, size.
  destruct (shape x) as [|b [|nc rest]] eqn:Hs; cbn [nth_error bind length].
  - repeat split; auto. intros; discriminate.
  - repeat split; auto. intros; discriminate.
  - destruct (nc mod 2 =? 0) eqn:Hm.
    + apply Nat.eqb_eq in Hm. destruct (even_halves nc Hm) as (Hmin & Hsub).
      unfold Layers.slice_to, Layers.slice_from. rewrite Hs. cbn [bind].
      unfold Layers.mul, Layers.F_sigmoid. cbn [shape data].
      rewrite Hmin, Hsub, list_nat_eqb_refl.
      split; [reflexivity|]. split; [simpl; lia|].
      intros b' nc' rest' E. injection E as <- <- <-.
      right. eexists. split; reflexivity.
    + split; [reflexivity|]. split; [simpl; lia|].
      intros b' nc' rest' E. now left.
Qed.

(** X20: [conv1x1] and [conv3x3] keep height and width, whatever
    positive size they are given, and return [out_planes] channels on
    an input of [in_planes] channels; on any other channel count they
    raise.  All sizes are positive. *)
Theorem conv_keeps_size (in_planes out_planes b c h w : nat) :
  0 < in_planes -> 0 < out_planes -> 0 < b -> 0 < h -> 0 < w ->
  Layers.layer_shape (Layers.conv1x1 in_planes out_planes) [b; c; h; w]
  = (if c =? in_planes then Ok [b; out_planes; h; w] else Err RuntimeError) /\
  Layers.layer_shape (Layers.conv3x3 in_planes out_planes) [b; c; h; w]
  = (if c =? in_planes then Ok [b; out_planes; h; w] else Err RuntimeError).
Proof.
  intros Hin Ho Hb Hh Hw. unfold Layers.conv1x1, Layers.conv3x3.
  cbn [Layers.layer_shape].
  replace (out_planes =? 0) with false by (symmetry; apply Nat.eqb_neq; lia).
  destruct (c =? in_planes); [|split; reflexivity]. cbn [andb negb].
  rewrite (conv_out_1x1 Hh), (conv_out_1x1 Hw).
  rewrite (conv_out_3x3 Hh), (conv_out_3x3 Hw). split; reflexivity.
Qed.

Lemma conv_keeps_size_witness :
  Layers.layer_shape (Layers.conv1x1 256 32) [2; 256; 5; 1]
  = (if 256 =? 256 then Ok [2; 32; 5; 1] else Err RuntimeError) /\
  Layers.layer_shape (Layers.conv3x3 256 32) [2; 256; 5; 1]
  = (if 256 =? 256 then Ok [2; 32; 5; 1] else Err RuntimeError).
Proof. apply (@conv_keeps_size 256 32 2 256 5 1); lia. Defined.
